(** * The multi-level response cache of api-manga

    A shallow embedding of [class CacheService] (the multi-level cache of
    [src/helper], with its [get], [set], [evictLRU], [delete], [clear],
    [getStats] and [middleware] methods) together with the pieces of the
    JavaScript run time that the class leans on: truthiness, [ToString],
    [JSON.stringify], [JSON.parse], insertion-ordered [Map]s and
    [Number.prototype.toFixed].

    Conventions.
    - [Date.now()] is a parameter [now : Z] of every operation.  The
      operations are synchronous, so one reading of the clock serves a whole
      call.
    - Cache entries are JavaScript objects: the two [Map]s hold references
      into a store of entries, so that the promotion in [get], which puts
      the very same object into both tiers, is visible as sharing.
    - An exception is a value of [Completion]; [try]/[catch] is a match on
      it.
    - [invalidatePattern], which compiles its argument into a [RegExp], the
      timer behind [startCleanup] and [hashKey], which no method calls, are
      not embedded. *)

From Stdlib Require Import ZArith List String Ascii Bool Lia.
From Stdlib Require Import Floats DecimalString DecimalFacts DecimalPos DecimalN.
Import ListNotations.

Set Warnings "-register-all".

Local Open Scope list_scope.
Local Open Scope string_scope.
Local Open Scope Z_scope.

(** ** JavaScript values *)

(** The payloads a caller can hand to the cache.  [VNum z] is the double of
    an integer in the safe range, which [Number::toString] prints in plain
    decimal; [NaN] stands for the numbers JSON has no text for.  Strings are
    sequences of code units below 256.  Functions, symbols, dates and
    [toJSON] hooks are left out.  [VObj] lists the own enumerable properties
    in enumeration order. *)
Inductive JSValue : Type :=
| VUndefined
| VNull
| VBool (b : bool)
| VNum (z : Z)
| VNaN
| VBigInt (z : Z)
| VStr (s : string)
| VArr (elems : list JSValue)
| VObj (props : list (string * JSValue)).

Inductive JSError : Type := TypeError | SyntaxError.

(** The outcome of evaluating an expression: a value, or a thrown error. *)
Inductive Completion (A : Type) : Type :=
| Normal (a : A)
| Throw (e : JSError).
Arguments Normal {A} a.
Arguments Throw {A} e.

(** [ToBoolean], the test behind [if (x)], [!x], [x || y] and [x && y]. *)
Definition ToBoolean (v : JSValue) : bool :=
  match v with
  | VUndefined | VNull | VNaN => false
  | VBool b => b
  | VNum z | VBigInt z => negb (z =? 0)
  | VStr s => negb (String.eqb s "")
  | VArr _ | VObj _ => true
  end.

(** Decimal digits of an integer, as [Number::toString] prints them. *)
Definition string_of_N (n : N) : string := NilEmpty.string_of_uint (N.to_uint n).

Definition string_of_Z (z : Z) : string :=
  if z <? 0 then "-" ++ string_of_N (Z.abs_N z) else string_of_N (Z.abs_N z).

Fixpoint join (sep : string) (l : list string) : string :=
  match l with
  | [] => ""
  | [x] => x
  | x :: r => x ++ sep ++ join sep r
  end.

(** [ToString], used by template literals and by [JSON.parse] on its
    argument.  [Array.prototype.join] prints [null] and [undefined] elements
    as the empty string. *)
Fixpoint ToString (v : JSValue) : string :=
  match v with
  | VUndefined => "undefined"
  | VNull => "null"
  | VBool true => "true"
  | VBool false => "false"
  | VNum z => string_of_Z z
  | VNaN => "NaN"
  | VBigInt z => string_of_Z z
  | VStr s => s
  | VArr l =>
      join "," (map (fun x => match x with
                              | VUndefined | VNull => ""
                              | _ => ToString x
                              end) l)
  | VObj _ => "[object Object]"
  end.

(** ** JSON.stringify *)

Module JSON.

Definition hex_digit (n : N) : ascii :=
  match n with
  | 0%N => "0" | 1%N => "1" | 2%N => "2" | 3%N => "3" | 4%N => "4"
  | 5%N => "5" | 6%N => "6" | 7%N => "7" | 8%N => "8" | 9%N => "9"
  | 10%N => "a" | 11%N => "b" | 12%N => "c" | 13%N => "d" | 14%N => "e"
  | _ => "f"
  end%char.

Definition dquote : ascii := Eval cbv in ascii_of_N 34.

(** One code unit of [QuoteJSONString]. *)
Definition quote_char (c : ascii) : string :=
  let n := N_of_ascii c in
  if (n =? 34)%N then String "\" (String dquote "")
  else if (n =? 92)%N then "\\"
  else if (n =? 8)%N then "\b"
  else if (n =? 12)%N then "\f"
  else if (n =? 10)%N then "\n"
  else if (n =? 13)%N then "\r"
  else if (n =? 9)%N then "\t"
  else if (n <? 32)%N then
    String "\" (String "u" (String "0" (String "0"
      (String (hex_digit (n / 16)) (String (hex_digit (n mod 16)) "")))))
  else String c "".

Fixpoint quote_body (s : string) : string :=
  match s with
  | EmptyString => ""
  | String c r => quote_char c ++ quote_body r
  end.

Definition QuoteJSONString (s : string) : string :=
  String dquote (quote_body s ++ String dquote "").

(** [SerializeJSONProperty]: [Normal None] is the result [undefined];
    a BigInt throws a TypeError.  Inside an array [undefined] prints as
    [null]; inside an object such a property is left out. *)
Fixpoint SerializeJSONProperty (v : JSValue) : Completion (option string) :=
  match v with
  | VUndefined => Normal None
  | VNull => Normal (Some "null")
  | VBool true => Normal (Some "true")
  | VBool false => Normal (Some "false")
  | VNum z => Normal (Some (string_of_Z z))
  | VNaN => Normal (Some "null")
  | VBigInt _ => Throw TypeError
  | VStr s => Normal (Some (QuoteJSONString s))
  | VArr l =>
      let fix elements (l : list JSValue) : Completion (list string) :=
        match l with
        | [] => Normal []
        | x :: r =>
            match SerializeJSONProperty x with
            | Throw e => Throw e
            | Normal o =>
                match elements r with
                | Throw e => Throw e
                | Normal ss =>
                    Normal (match o with Some s => s | None => "null" end :: ss)
                end
            end
        end in
      match elements l with
      | Throw e => Throw e
      | Normal ss => Normal (Some ("[" ++ join "," ss ++ "]"))
      end
  | VObj ps =>
      let fix members (ps : list (string * JSValue)) : Completion (list string) :=
        match ps with
        | [] => Normal []
        | (k, x) :: r =>
            match SerializeJSONProperty x with
            | Throw e => Throw e
            | Normal o =>
                match members r with
                | Throw e => Throw e
                | Normal ss =>
                    Normal (match o with
                            | Some s => (QuoteJSONString k ++ ":" ++ s) :: ss
                            | None => ss
                            end)
                end
            end
        end in
      match members ps with
      | Throw e => Throw e
      | Normal ss => Normal (Some ("{" ++ join "," ss ++ "}"))
      end
  end.

Definition stringify (v : JSValue) : Completion (option string) :=
  SerializeJSONProperty v.

(** ** JSON.parse *)

(** The grammar of ECMA-404 on texts of code units below 256, with two
    cuts that follow the value model: a number with a fraction or an
    exponent, and a [\u] escape above [00ff], are outside the modelled
    fragment and rejected.  Neither is ever printed by [stringify]. *)

Definition is_ws (c : ascii) : bool :=
  let n := N_of_ascii c in
  ((n =? 32) || (n =? 9) || (n =? 10) || (n =? 13))%N.

Fixpoint skip_ws (s : string) : string :=
  match s with
  | String c r => if is_ws c then skip_ws r else s
  | EmptyString => s
  end.

Definition is_digit (c : ascii) : bool :=
  let n := N_of_ascii c in ((48 <=? n) && (n <=? 57))%N.

Fixpoint span_digits (s : string) : string * string :=
  match s with
  | String c r =>
      if is_digit c then let (d, r') := span_digits r in (String c d, r')
      else ("", s)
  | EmptyString => ("", "")
  end.

Definition digits_value (d : string) : option N :=
  option_map N.of_uint (NilEmpty.uint_of_string d).

Definition starts_fraction_or_exponent (s : string) : bool :=
  match s with
  | String c _ =>
      let n := N_of_ascii c in ((n =? 46) || (n =? 101) || (n =? 69))%N
  | EmptyString => false
  end.

Definition parse_number (s : string) : option (Z * string) :=
  let '(neg, s1) :=
    match s with
    | String c r => if (N_of_ascii c =? 45)%N then (true, r) else (false, s)
    | EmptyString => (false, s)
    end in
  let '(d, rest) := span_digits s1 in
  match d with
  | EmptyString => None
  | String c d' =>
      if ((N_of_ascii c =? 48)%N && negb (String.eqb d' "")) then None
      else if starts_fraction_or_exponent rest then None
      else match digits_value d with
           | Some n => Some (if neg then - Z.of_N n else Z.of_N n, rest)
           | None => None
           end
  end.

Definition hex_value (c : ascii) : option N :=
  let n := N_of_ascii c in
  if ((48 <=? n) && (n <=? 57))%N then Some (n - 48)%N
  else if ((97 <=? n) && (n <=? 102))%N then Some (n - 87)%N
  else if ((65 <=? n) && (n <=? 70))%N then Some (n - 55)%N
  else None.

Definition hex4 (a b c d : ascii) : option N :=
  match hex_value a, hex_value b, hex_value c, hex_value d with
  | Some x, Some y, Some z, Some w => Some (((x * 16 + y) * 16 + z) * 16 + w)%N
  | _, _, _, _ => None
  end.

(** The character an escape letter stands for. *)
Definition unescape (e : ascii) : option ascii :=
  let n := N_of_ascii e in
  if ((n =? 34) || (n =? 92) || (n =? 47))%N then Some e
  else if (n =? 98)%N then Some (ascii_of_N 8)
  else if (n =? 102)%N then Some (ascii_of_N 12)
  else if (n =? 110)%N then Some (ascii_of_N 10)
  else if (n =? 114)%N then Some (ascii_of_N 13)
  else if (n =? 116)%N then Some (ascii_of_N 9)
  else None.

Definition cons_char (c : ascii) (x : option (string * string)) :
  option (string * string) :=
  match x with
  | Some (s, r) => Some (String c s, r)
  | None => None
  end.

(** The characters of a string literal after its opening quote, up to and
    including the closing one. *)
Fixpoint parse_string_body (s : string) : option (string * string) :=
  match s with
  | EmptyString => None
  | String c r =>
      let n := N_of_ascii c in
      if (n =? 34)%N then Some ("", r)
      else if (n =? 92)%N then
        match r with
        | String e r' =>
            if (N_of_ascii e =? 117)%N then
              match r' with
              | String h1 (String h2 (String h3 (String h4 r''))) =>
                  match hex4 h1 h2 h3 h4 with
                  | Some code =>
                      if (code <? 256)%N
                      then cons_char (ascii_of_N code) (parse_string_body r'')
                      else None
                  | None => None
                  end
              | _ => None
              end
            else
              match unescape e with
              | Some ch => cons_char ch (parse_string_body r')
              | None => None
              end
        | EmptyString => None
        end
      else if (n <? 32)%N then None
      else cons_char c (parse_string_body r)
  end.

(** [s] with the word [w] taken off its front. *)
Fixpoint expect (w s : string) : option string :=
  match w, s with
  | EmptyString, _ => Some s
  | String a w', String b s' => if Ascii.eqb a b then expect w' s' else None
  | String _ _, EmptyString => None
  end.

(** [CreateDataProperty] on the object under construction: a repeated
    key overwrites the earlier value in its place. *)
Fixpoint set_prop (o : list (string * JSValue)) (k : string) (v : JSValue) :
  list (string * JSValue) :=
  match o with
  | [] => [(k, v)]
  | (k', v') :: r =>
      if String.eqb k' k then (k, v) :: r else (k', v') :: set_prop r k v
  end.

Definition make_object (ms : list (string * JSValue)) : JSValue :=
  VObj (fold_left (fun o kv => set_prop o (fst kv) (snd kv)) ms []).

Fixpoint parse_value (fuel : nat) (s : string) : option (JSValue * string) :=
  match fuel with
  | O => None
  | S fuel' =>
      match skip_ws s with
      | EmptyString => None
      | String c r =>
          let n := N_of_ascii c in
          if (n =? 110)%N then option_map (pair VNull) (expect "ull" r)
          else if (n =? 116)%N then option_map (pair (VBool true)) (expect "rue" r)
          else if (n =? 102)%N then option_map (pair (VBool false)) (expect "alse" r)
          else if (n =? 34)%N then
            match parse_string_body r with
            | Some (str, r') => Some (VStr str, r')
            | None => None
            end
          else if (n =? 91)%N then
            match skip_ws r with
            | EmptyString => None
            | String c2 r2 =>
                if (N_of_ascii c2 =? 93)%N then Some (VArr [], r2)
                else match parse_elements fuel' r with
                     | Some (vs, r') => Some (VArr vs, r')
                     | None => None
                     end
            end
          else if (n =? 123)%N then
            match skip_ws r with
            | EmptyString => None
            | String c2 r2 =>
                if (N_of_ascii c2 =? 125)%N then Some (VObj [], r2)
                else match parse_members fuel' r with
                     | Some (ms, r') => Some (make_object ms, r')
                     | None => None
                     end
            end
          else
            match parse_number (String c r) with
            | Some (z, r') => Some (VNum z, r')
            | None => None
            end
      end
  end
with parse_elements (fuel : nat) (s : string) : option (list JSValue * string) :=
  match fuel with
  | O => None
  | S fuel' =>
      match parse_value fuel' s with
      | None => None
      | Some (v, r) =>
          match skip_ws r with
          | EmptyString => None
          | String c r' =>
              if (N_of_ascii c =? 44)%N then
                match parse_elements fuel' r' with
                | Some (vs, r'') => Some (v :: vs, r'')
                | None => None
                end
              else if (N_of_ascii c =? 93)%N then Some ([v], r')
              else None
          end
      end
  end
with parse_members (fuel : nat) (s : string) :
  option (list (string * JSValue) * string) :=
  match fuel with
  | O => None
  | S fuel' =>
      match skip_ws s with
      | EmptyString => None
      | String q r =>
          if negb (N_of_ascii q =? 34)%N then None
          else
            match parse_string_body r with
            | None => None
            | Some (k, r1) =>
                match skip_ws r1 with
                | EmptyString => None
                | String c1 r2 =>
                    if negb (N_of_ascii c1 =? 58)%N then None
                    else
                      match parse_value fuel' r2 with
                      | None => None
                      | Some (v, r3) =>
                          match skip_ws r3 with
                          | EmptyString => None
                          | String c3 r4 =>
                              if (N_of_ascii c3 =? 44)%N then
                                match parse_members fuel' r4 with
                                | Some (ms, r5) => Some ((k, v) :: ms, r5)
                                | None => None
                                end
                              else if (N_of_ascii c3 =? 125)%N
                                   then Some ([(k, v)], r4)
                              else None
                          end
                      end
                end
            end
      end
  end.

(** Every call down the recursion is paid for by a character read, so
    twice the length of the text is fuel enough. *)
Definition parse_text (text : string) : Completion JSValue :=
  match parse_value (2 * String.length text + 2) text with
  | Some (v, r) =>
      match skip_ws r with
      | EmptyString => Normal v
      | String _ _ => Throw SyntaxError
      end
  | None => Throw SyntaxError
  end.

(** [JSON.parse(x)] first converts its argument to a string. *)
Definition parse (x : JSValue) : Completion JSValue := parse_text (ToString x).

End JSON.

(** ** Insertion-ordered maps *)

(** A JavaScript [Map] with string keys: the entries in insertion order.
    [set] on a key that is present replaces the value where it stands;
    [delete] takes the key out wherever it stands. *)
Module JSMap.
Section Ops.
Context {V : Type}.

Definition t : Type := list (string * V).

Definition empty : t := [].

Fixpoint get (m : t) (k : string) : option V :=
  match m with
  | [] => None
  | (k', v) :: r => if String.eqb k' k then Some v else get r k
  end.

Definition has (m : t) (k : string) : bool :=
  match get m k with Some _ => true | None => false end.

Fixpoint set (m : t) (k : string) (v : V) : t :=
  match m with
  | [] => [(k, v)]
  | (k', v') :: r =>
      if String.eqb k' k then (k, v) :: r else (k', v') :: set r k v
  end.

Definition delete (m : t) (k : string) : t :=
  filter (fun kv => negb (String.eqb (fst kv) k)) m.

Definition size (m : t) : Z := Z.of_nat (List.length m).

Definition keys (m : t) : list string := map fst m.
End Ops.
Arguments t : clear implicits.
End JSMap.

(** ** The cache: data *)

(** The object literal built by [set]. *)
Record CacheEntry : Type := mkEntry {
  value : JSValue;
  compressed : bool;
  expiresAt : Z;
  createdAt : Z;
  lastAccessed : Z;
  accessCount : Z;
  level : string;
  tags : list string
}.

Record Stats : Type := mkStats {
  hits : Z;
  misses : Z;
  sets : Z;
  deletes : Z;
  compressions : Z;
  decompressions : Z
}.

(** One element of the array given to [warmCache]. *)
Record SetOptions : Type := mkSetOptions {
  opt_level : option string;
  opt_tags : option (list string);
  opt_compress : option bool
}.

Definition no_options : SetOptions := mkSetOptions None None None.

Record WarmItem : Type := mkWarmItem {
  w_key : string;
  w_value : JSValue;
  w_ttl : option Z;
  w_options : option SetOptions
}.

(** A reference to an entry object: its address in [store]. *)
Definition Ref : Type := nat.

(** The fields of a [CacheService] instance.  [store] is the heap of entry
    objects the two maps point into. *)
Record CacheService : Type := mkCache {
  store : list CacheEntry;
  l1Cache : JSMap.t Ref;
  l2Cache : JSMap.t Ref;
  stats : Stats;
  defaultTTL : Z;
  maxSize : Z;
  cleanupInterval : Z;
  enableCompression : bool;
  compressionThreshold : Z;
  warmingQueue : list WarmItem;
  isWarming : bool
}.

Record CacheOptions : Type := mkCacheOptions {
  o_defaultTTL : option Z;
  o_maxSize : option Z;
  o_cleanupInterval : option Z;
  o_enableCompression : option bool;
  o_compressionThreshold : option Z
}.

Definition default_options : CacheOptions :=
  mkCacheOptions None None None None None.

(** [x || d] on an optional number: absent and [0] are falsy. *)
Definition num_or (x : option Z) (d : Z) : Z :=
  match x with
  | Some z => if z =? 0 then d else z
  | None => d
  end.

(** [constructor(options = {})]. *)
Definition new_CacheService (options : CacheOptions) : CacheService :=
  {| store := [];
     l1Cache := JSMap.empty;
     l2Cache := JSMap.empty;
     stats := mkStats 0 0 0 0 0 0;
     defaultTTL := num_or (o_defaultTTL options) (5 * 60 * 1000);
     maxSize := num_or (o_maxSize options) 1000;
     cleanupInterval := num_or (o_cleanupInterval options) (60 * 1000);
     enableCompression :=
       match o_enableCompression options with Some false => false | _ => true end;
     compressionThreshold := num_or (o_compressionThreshold options) 1024;
     warmingQueue := [];
     isWarming := false |}.

(** Field updates. *)
Definition with_store (h : list CacheEntry) (s : CacheService) : CacheService :=
  mkCache h (l1Cache s) (l2Cache s) (stats s) (defaultTTL s) (maxSize s)
    (cleanupInterval s) (enableCompression s) (compressionThreshold s)
    (warmingQueue s) (isWarming s).

Definition with_l1 (m : JSMap.t Ref) (s : CacheService) : CacheService :=
  mkCache (store s) m (l2Cache s) (stats s) (defaultTTL s) (maxSize s)
    (cleanupInterval s) (enableCompression s) (compressionThreshold s)
    (warmingQueue s) (isWarming s).

Definition with_l2 (m : JSMap.t Ref) (s : CacheService) : CacheService :=
  mkCache (store s) (l1Cache s) m (stats s) (defaultTTL s) (maxSize s)
    (cleanupInterval s) (enableCompression s) (compressionThreshold s)
    (warmingQueue s) (isWarming s).

Definition with_stats (st : Stats) (s : CacheService) : CacheService :=
  mkCache (store s) (l1Cache s) (l2Cache s) st (defaultTTL s) (maxSize s)
    (cleanupInterval s) (enableCompression s) (compressionThreshold s)
    (warmingQueue s) (isWarming s).

Definition with_warming (q : list WarmItem) (w : bool) (s : CacheService) :
  CacheService :=
  mkCache (store s) (l1Cache s) (l2Cache s) (stats s) (defaultTTL s) (maxSize s)
    (cleanupInterval s) (enableCompression s) (compressionThreshold s) q w.

Definition inc_hits (s : CacheService) : CacheService :=
  let st := stats s in
  with_stats (mkStats (hits st + 1) (misses st) (sets st) (deletes st)
                (compressions st) (decompressions st)) s.

Definition inc_misses (s : CacheService) : CacheService :=
  let st := stats s in
  with_stats (mkStats (hits st) (misses st + 1) (sets st) (deletes st)
                (compressions st) (decompressions st)) s.

Definition inc_sets (s : CacheService) : CacheService :=
  let st := stats s in
  with_stats (mkStats (hits st) (misses st) (sets st + 1) (deletes st)
                (compressions st) (decompressions st)) s.

Definition add_deletes (n : Z) (s : CacheService) : CacheService :=
  let st := stats s in
  with_stats (mkStats (hits st) (misses st) (sets st) (deletes st + n)
                (compressions st) (decompressions st)) s.

Definition inc_compressions (s : CacheService) : CacheService :=
  let st := stats s in
  with_stats (mkStats (hits st) (misses st) (sets st) (deletes st)
                (compressions st + 1) (decompressions st)) s.

Definition inc_decompressions (s : CacheService) : CacheService :=
  let st := stats s in
  with_stats (mkStats (hits st) (misses st) (sets st) (deletes st)
                (compressions st) (decompressions st + 1)) s.

(** [new]: a fresh object at the end of the store. *)
Definition alloc (e : CacheEntry) (s : CacheService) : Ref * CacheService :=
  (List.length (store s), with_store (store s ++ [e])%list s).

Fixpoint update_nth {A : Type} (l : list A) (i : nat) (f : A -> A) : list A :=
  match l, i with
  | [], _ => []
  | x :: r, O => f x :: r
  | x :: r, S j => x :: update_nth r j f
  end.

(** [m.get(key)]: the object a map holds for [key], with its address. *)
Definition item_of (s : CacheService) (m : JSMap.t Ref) (key : string) :
  option (Ref * CacheEntry) :=
  match JSMap.get m key with
  | Some r =>
      match nth_error (store s) r with
      | Some e => Some (r, e)
      | None => None
      end
  | None => None
  end.

(** ** The cache: operations *)

(** [isExpired(item)]: [Date.now() > item.expiresAt]. *)
Definition isExpired (now : Z) (item : CacheEntry) : bool :=
  expiresAt item <? now.

(** [compress(value)] is [JSON.stringify(value)]. *)
Definition compress (v : JSValue) : Completion JSValue :=
  match JSON.stringify v with
  | Normal (Some str) => Normal (VStr str)
  | Normal None => Normal VUndefined
  | Throw e => Throw e
  end.

(** [decompress(compressed)] is [JSON.parse(compressed)]. *)
Definition decompress (c : JSValue) : Completion JSValue := JSON.parse c.

(** [delete(key)]. *)
Definition delete (key : string) (s : CacheService) : bool * CacheService :=
  let l1Deleted := JSMap.has (l1Cache s) key in
  let s := with_l1 (JSMap.delete (l1Cache s) key) s in
  let l2Deleted := JSMap.has (l2Cache s) key in
  let s := with_l2 (JSMap.delete (l2Cache s) key) s in
  if l1Deleted || l2Deleted
  then (true, add_deletes 1 s)
  else (false, s).

(** The callback of the [forEach] in [evictLRU]: an item accessed before
    everything seen so far becomes the candidate. *)
Definition lru_step (st : list CacheEntry) (acc : option string * Z)
  (kr : string * Ref) : option string * Z :=
  match nth_error st (snd kr) with
  | Some item =>
      if lastAccessed item <? snd acc
      then (Some (fst kr), lastAccessed item)
      else acc
  | None => acc
  end.

(** The scan of [evictLRU]: [lruKey] and [lruTime] after the [forEach] over
    L1 in insertion order, starting from [null] and [Date.now()]. *)
Definition lru_scan (now : Z) (s : CacheService) : option string * Z :=
  fold_left (lru_step (store s)) (l1Cache s) (None, now).

Definition with_level (lv : string) (e : CacheEntry) : CacheEntry :=
  mkEntry (value e) (compressed e) (expiresAt e) (createdAt e)
    (lastAccessed e) (accessCount e) lv (tags e).

(** [evictLRU()].  [if (lruKey)] is false for [null] and for the empty
    string. *)
Definition evictLRU (now : Z) (s : CacheService) : CacheService :=
  if JSMap.size (l1Cache s) =? 0 then s
  else
    match fst (lru_scan now s) with
    | None => s
    | Some lruKey =>
        if String.eqb lruKey "" then s
        else
          let item := item_of s (l1Cache s) lruKey in
          let s := with_l1 (JSMap.delete (l1Cache s) lruKey) s in
          if JSMap.size (l2Cache s) <? maxSize s then
            match item with
            | Some (_, e) =>
                let '(r, s) := alloc (with_level "L2" e) s in
                with_l2 (JSMap.set (l2Cache s) lruKey r) s
            | None => s
            end
          else s
    end.

(** The two assignments that end a successful [get]. *)
Definition touch (r : Ref) (now : Z) (s : CacheService) : CacheService :=
  with_store
    (update_nth (store s) r
       (fun e => mkEntry (value e) (compressed e) (expiresAt e) (createdAt e)
                   now (accessCount e + 1) (level e) (tags e)))
    s.

(** [!item || this.isExpired(item)]. *)
Definition absent_or_expired (now : Z) (item : option (Ref * CacheEntry)) : bool :=
  match item with
  | Some (_, e) => isExpired now e
  | None => true
  end.

(** [get(key)].  The local [cacheLevel] of the source is never read and is
    left out. *)
Definition get (key : string) (now : Z) (s : CacheService) :
  JSValue * CacheService :=
  let item := item_of s (l1Cache s) key in
  let '(item, s) :=
    if absent_or_expired now item then
      let item := item_of s (l2Cache s) key in
      match item with
      | Some (r2, e2) =>
          if negb (isExpired now e2)
          then (item, with_l1 (JSMap.set (l1Cache s) key r2) s)
          else (item, s)
      | None => (item, s)
      end
    else (item, s) in
  match item with
  | None => (VNull, inc_misses s)
  | Some (r, e) =>
      if isExpired now e then
        let s := inc_misses s in
        (VNull, snd (delete key s))
      else
        let s := inc_hits s in
        if compressed e && enableCompression s then
          match decompress (value e) with
          | Normal v => (v, touch r now (inc_decompressions s))
          | Throw _ => (VNull, snd (delete key s))
          end
        else (value e, touch r now s)
  end.

(** [x || d] on an optional string: absent and the empty string are falsy. *)
Definition str_or (x : option string) (d : string) : string :=
  match x with
  | Some v => if String.eqb v "" then d else v
  | None => d
  end.

(** [set(key, value, ttl = null, options = {})].  The comparison
    [l1Cache.size >= maxSize * 0.8] is between an integer and the double
    nearest to four fifths of [maxSize]; for integer [maxSize] it holds
    exactly when [4 * maxSize <= 5 * size]. *)
Definition set (key : string) (v : JSValue) (ttl : option Z)
  (options : SetOptions) (now : Z) (s : CacheService) :
  Completion unit * CacheService :=
  let s := if maxSize s <=? JSMap.size (l1Cache s) then evictLRU now s else s in
  let expires := now + num_or ttl (defaultTTL s) in
  let encoded : Completion (JSValue * bool * CacheService) :=
    if enableCompression s
       && negb (match opt_compress options with Some false => true | _ => false end)
    then
      match JSON.stringify v with
      | Throw e => Throw e
      | Normal None => Throw TypeError
      | Normal (Some str) =>
          if compressionThreshold s <? Z.of_nat (String.length str) then
            match compress v with
            | Normal cv => Normal (cv, true, inc_compressions s)
            | Throw _ => Normal (v, false, s)
            end
          else Normal (v, false, s)
      end
    else Normal (v, false, s) in
  match encoded with
  | Throw e => (Throw e, s)
  | Normal (cacheValue, isCompressed, s) =>
      let item :=
        {| value := cacheValue;
           compressed := isCompressed;
           expiresAt := expires;
           createdAt := now;
           lastAccessed := now;
           accessCount := 0;
           level := str_or (opt_level options) "L1";
           tags := match opt_tags options with Some l => l | None => [] end |} in
      let '(r, s) := alloc item s in
      let s :=
        if match opt_level options with
           | Some lv => String.eqb lv "L2"
           | None => false
           end
           || (4 * maxSize s <=? 5 * JSMap.size (l1Cache s))
        then with_l2 (JSMap.set (l2Cache s) key r) s
        else with_l1 (JSMap.set (l1Cache s) key r) s in
      (Normal tt, inc_sets s)
  end.

(** [clear()]. *)
Definition clear (s : CacheService) : CacheService :=
  let s := with_l1 JSMap.empty s in
  let s := with_l2 JSMap.empty s in
  add_deletes (sets (stats s)) s.

(** ** Statistics *)

(** A counter as a double.  Counters stay far below [2^53], where the
    conversion is exact. *)
Definition float_of_Z (z : Z) : float :=
  if z <? 0 then PrimFloat.opp (PrimFloat.of_uint63 (Uint63.of_Z (- z)))
  else PrimFloat.of_uint63 (Uint63.of_Z z).

Definition two_digits (n : Z) : string :=
  if n <? 10 then "0" ++ string_of_Z n else string_of_Z n.

(** [x.toFixed(2)] for a double below [1e21]: the integer [n] nearest to
    [100 * x], the larger one on a tie, printed with two decimals.  The
    value of a finite double is [m * 2^e] exactly. *)
Definition toFixed2 (x : float) : string :=
  match Prim2SF x with
  | S754_zero _ => "0.00"
  | S754_infinity false => "Infinity"
  | S754_infinity true => "-Infinity"
  | S754_nan => "NaN"
  | S754_finite sign m e =>
      let n :=
        if 0 <=? e then Z.pos m * 2 ^ e * 100
        else (200 * Z.pos m + 2 ^ (- e)) / 2 ^ (1 - e) in
      (if sign then "-" else "") ++ string_of_Z (n / 100) ++ "." ++ two_digits (n mod 100)
  end.

(** [getItemSize(item)]: a failure of the serialization counts as 0. *)
Definition getItemSize (item : CacheEntry) : Z :=
  match JSON.stringify (value item) with
  | Normal (Some str) => Z.of_nat (String.length str)
  | Normal None => 0
  | Throw _ => 0
  end.

Record TierReport : Type := mkTierReport {
  r_size : Z;
  r_expired : Z;
  r_active : Z
}.

Record PerformanceReport : Type := mkPerformanceReport {
  p_hits : Z;
  p_misses : Z;
  hitRate : JSValue;
  p_sets : Z;
  p_deletes : Z;
  p_compressions : Z;
  p_decompressions : Z
}.

Record TotalReport : Type := mkTotalReport {
  t_size : Z;
  t_expired : Z;
  t_active : Z;
  estimatedSize : Z
}.

Record StatsReport : Type := mkStatsReport {
  l1 : TierReport;
  l2 : TierReport;
  total : TotalReport;
  performance : PerformanceReport
}.

(** The entries of a tier, in iteration order. *)
Definition items_of (s : CacheService) (m : JSMap.t Ref) : list CacheEntry :=
  flat_map (fun kr => match nth_error (store s) (snd kr) with
                      | Some e => [e]
                      | None => []
                      end) m.

Definition count_expired (now : Z) (l : list CacheEntry) : Z :=
  Z.of_nat (List.length (filter (isExpired now) l)).

Definition total_size (l : list CacheEntry) : Z :=
  fold_left (fun acc e => acc + getItemSize e) l 0.

(** The local [hitRate] of [getStats]: the string of [toFixed(2)], or the
    number 0. *)
Definition hit_rate_value (st : Stats) : JSValue :=
  if 0 <? hits st + misses st
  then VStr (toFixed2
               (PrimFloat.mul
                  (PrimFloat.div (float_of_Z (hits st))
                     (float_of_Z (hits st + misses st)))
                  (float_of_Z 100)))
  else VNum 0.

(** [getStats()]. *)
Definition getStats (now : Z) (s : CacheService) : StatsReport :=
  let i1 := items_of s (l1Cache s) in
  let i2 := items_of s (l2Cache s) in
  let l1Expired := count_expired now i1 in
  let l2Expired := count_expired now i2 in
  let totalSize := total_size i1 + total_size i2 in
  let st := stats s in
  let n1 := JSMap.size (l1Cache s) in
  let n2 := JSMap.size (l2Cache s) in
  {| l1 := mkTierReport n1 l1Expired (n1 - l1Expired);
     l2 := mkTierReport n2 l2Expired (n2 - l2Expired);
     total := mkTotalReport (n1 + n2) (l1Expired + l2Expired)
                ((n1 + n2) - (l1Expired + l2Expired)) totalSize;
     performance :=
       {| p_hits := hits st;
          p_misses := misses st;
          hitRate := VStr (ToString (hit_rate_value st) ++ "%");
          p_sets := sets st;
          p_deletes := deletes st;
          p_compressions := compressions st;
          p_decompressions := decompressions st |} |}.

(** ** Bulk operations *)

(** [item.tags && item.tags.some(tag => tagSet.has(tag))]. *)
Definition has_tag (wanted : list string) (s : CacheService) (kr : string * Ref) : bool :=
  match nth_error (store s) (snd kr) with
  | Some e => existsb (fun tag => existsb (String.eqb tag) wanted) (tags e)
  | None => false
  end.

(** [invalidateByTags(tags)]: deleting the entry a [forEach] is visiting
    does not disturb the visit of the others. *)
Definition invalidateByTags (wanted : list string) (s : CacheService) :
  Z * CacheService :=
  let hit1 := filter (has_tag wanted s) (l1Cache s) in
  let hit2 := filter (has_tag wanted s) (l2Cache s) in
  let count := Z.of_nat (List.length hit1) + Z.of_nat (List.length hit2) in
  let s' := with_l1 (filter (fun kr => negb (has_tag wanted s kr)) (l1Cache s)) s in
  let s' := with_l2 (filter (fun kr => negb (has_tag wanted s kr)) (l2Cache s)) s' in
  (count, add_deletes count s').

Definition expired_keys (now : Z) (s : CacheService) (m : JSMap.t Ref) : list string :=
  map fst (filter (fun kr => match nth_error (store s) (snd kr) with
                             | Some e => isExpired now e
                             | None => false
                             end) m).

(** [cleanup()].  [size > maxSize * 0.9] on integers is
    [9 * maxSize < 10 * size]. *)
Definition cleanup (now : Z) (s : CacheService) : CacheService :=
  let keysToDeleteL1 := expired_keys now s (l1Cache s) in
  let keysToDeleteL2 := expired_keys now s (l2Cache s) in
  let s := with_l1 (fold_left JSMap.delete keysToDeleteL1 (l1Cache s)) s in
  let s := with_l2 (fold_left JSMap.delete keysToDeleteL2 (l2Cache s)) s in
  if 9 * maxSize s <? 10 * JSMap.size (l1Cache s) then evictLRU now s else s.

Definition set_item (now : Z) (item : WarmItem) (s : CacheService) :
  Completion unit * CacheService :=
  set (w_key item) (w_value item) (w_ttl item)
    (match w_options item with Some o => o | None => no_options end) now s.

Fixpoint set_all (now : Z) (items : list WarmItem) (s : CacheService) :
  Completion unit * CacheService :=
  match items with
  | [] => (Normal tt, s)
  | item :: rest =>
      match set_item now item s with
      | (Normal _, s') => set_all now rest s'
      | (Throw e, s') => (Throw e, s')
      end
  end.

(** The [while] loop of [warmCache]: [shift] each queued item and [set] it. *)
Fixpoint drain (now : Z) (queue : list WarmItem) (s : CacheService) :
  Completion unit * CacheService :=
  match queue with
  | [] => (Normal tt, with_warming [] (isWarming s) s)
  | item :: rest =>
      match set_item now item (with_warming rest (isWarming s) s) with
      | (Normal _, s') => drain now rest s'
      | (Throw e, s') => (Throw e, s')
      end
  end.

(** [warmCache(items)].  The body has no [await]: it runs to its end, and
    [finally] resets the flag whether or not a [set] threw. *)
Definition warmCache (items : list WarmItem) (now : Z) (s : CacheService) :
  Completion unit * CacheService :=
  if isWarming s
  then (Normal tt, with_warming (warmingQueue s ++ items)%list (isWarming s) s)
  else
    let s := with_warming (warmingQueue s) true s in
    let '(c, s) :=
      match set_all now items s with
      | (Normal _, s') => drain now (warmingQueue s') s'
      | (Throw e, s') => (Throw e, s')
      end in
    (c, with_warming (warmingQueue s) false s).

(** ** Keys and the Express middleware *)

Fixpoint insert_sorted (k : string) (l : list string) : list string :=
  match l with
  | [] => [k]
  | x :: r => if String.leb k x then k :: l else x :: insert_sorted k r
  end.

(** [Array.prototype.sort()] on strings: ascending by code units. *)
Definition sort_strings (l : list string) : list string :=
  fold_right insert_sorted [] l.

Definition volatile (k : string) : bool :=
  String.eqb k "_t" || String.eqb k "timestamp" || String.eqb k "nocache".

(** [generateKey(url, params = {})]. *)
Definition generateKey (url : string) (params : list (string * JSValue)) : string :=
  let cacheParams := filter (fun kv => negb (volatile (fst kv))) params in
  let kept :=
    filter (fun key => match JSMap.get cacheParams key with
                       | Some VUndefined | Some VNull | None => false
                       | Some _ => true
                       end)
      (sort_strings (JSMap.keys cacheParams)) in
  let paramsString :=
    join "&" (map (fun key => key ++ "=" ++ match JSMap.get cacheParams key with
                                            | Some v => ToString v
                                            | None => "undefined"
                                            end) kept) in
  url ++ (if String.eqb paramsString "" then "" else "?" ++ paramsString).

Record Request : Type := mkRequest {
  originalUrl : string;
  query : list (string * JSValue)
}.

(** What [res.json] is bound to: the method of Express, or the function
    the cache middleware installed around an earlier one. *)
Inductive JsonMethod : Type :=
| ExpressJson
| CachingJson (key : string) (ttl : option Z) (currentJson : JsonMethod).

Record Response : Type := mkResponse {
  headers : JSMap.t string;
  json : JsonMethod;
  body : option JSValue
}.

(** [res.set(field, value)]. *)
Definition res_set (field val : string) (res : Response) : Response :=
  mkResponse (JSMap.set (headers res) field val) (json res) (body res).

(** [res.json(data)] through whatever is installed. *)
Fixpoint call_json (m : JsonMethod) (data : JSValue) (now : Z)
  (res : Response) (s : CacheService) : Completion unit * Response * CacheService :=
  match m with
  | ExpressJson => (Normal tt, mkResponse (headers res) (json res) (Some data), s)
  | CachingJson key ttl currentJson =>
      match set key data ttl no_options now s with
      | (Throw e, s') => (Throw e, res, s')
      | (Normal _, s') =>
          call_json currentJson data now (res_set "X-Cache" "MISS" res) s'
      end
  end.

(** How the middleware leaves the request: answered from the cache, or
    handed to [next()]. *)
Inductive Handled : Type := Responded | CalledNext.

(** The function returned by [middleware(ttl = null)]. *)
Definition middleware (ttl : option Z) (req : Request) (res : Response)
  (now : Z) (s : CacheService) : Completion Handled * Response * CacheService :=
  let key := generateKey (originalUrl req) (query req) in
  let '(cached, s) := get key now s in
  if ToBoolean cached then
    let res := res_set "X-Cache" "HIT" res in
    match call_json (json res) cached now res s with
    | (Normal _, res', s') => (Normal Responded, res', s')
    | (Throw e, res', s') => (Throw e, res', s')
    end
  else
    let currentJson := json res in
    (Normal CalledNext,
     mkResponse (headers res) (CachingJson key ttl currentJson) (body res), s).

(** ** Deep equality *)

(** Structural comparison, the strictest reading of deep-equal: same
    kind, same scalars, arrays and objects equal member by member. *)
Fixpoint deepEqual (a b : JSValue) : bool :=
  match a, b with
  | VUndefined, VUndefined => true
  | VNull, VNull => true
  | VBool x, VBool y => Bool.eqb x y
  | VNum x, VNum y => x =? y
  | VNaN, VNaN => true
  | VBigInt x, VBigInt y => x =? y
  | VStr x, VStr y => String.eqb x y
  | VArr xs, VArr ys =>
      (fix all2 (xs ys : list JSValue) : bool :=
         match xs, ys with
         | [], [] => true
         | x :: xr, y :: yr => deepEqual x y && all2 xr yr
         | _, _ => false
         end) xs ys
  | VObj ps, VObj qs =>
      (fix all2 (ps qs : list (string * JSValue)) : bool :=
         match ps, qs with
         | [], [] => true
         | (k, x) :: pr, (l, y) :: qr =>
             String.eqb k l && deepEqual x y && all2 pr qr
         | _, _ => false
         end) ps qs
  | _, _ => false
  end.

(** The tail of [get] once an unexpired item has been found. *)
Definition serve (key : string) (now : Z) (r : Ref) (e : CacheEntry)
  (s : CacheService) : JSValue * CacheService :=
  let s := inc_hits s in
  if compressed e && enableCompression s then
    match decompress (value e) with
    | Normal v => (v, touch r now (inc_decompressions s))
    | Throw _ => (VNull, snd (delete key s))
    end
  else (value e, touch r now s).

(** ** JSON-safe values *)

(** The values the codec is made for: [null], booleans, numbers, strings,
    and arrays and objects of such, an object having each key once. *)
Fixpoint distinct (l : list string) : bool :=
  match l with
  | [] => true
  | x :: r => negb (existsb (String.eqb x) r) && distinct r
  end.

Fixpoint json_safe (v : JSValue) : bool :=
  match v with
  | VNull | VBool _ | VNum _ | VStr _ => true
  | VUndefined | VNaN | VBigInt _ => false
  | VArr l => forallb json_safe l
  | VObj ps => forallb (fun kv => json_safe (snd kv)) ps && distinct (map fst ps)
  end.

(** Fuel that [parse_value] needs to read a value back. *)
Fixpoint weight (v : JSValue) : nat :=
  match v with
  | VArr l => S (fold_right (fun x n => S (weight x + n)) O l)
  | VObj ps => S (fold_right (fun kv n => S (weight (snd kv) + n)) O ps)
  | _ => 1
  end.

(** Induction on values that reaches into arrays and objects. *)
Section JSValue_induction.
Variable P : JSValue -> Prop.
Hypothesis Hundefined : P VUndefined.
Hypothesis Hnull : P VNull.
Hypothesis Hbool : forall b, P (VBool b).
Hypothesis Hnum : forall z, P (VNum z).
Hypothesis Hnan : P VNaN.
Hypothesis Hbigint : forall z, P (VBigInt z).
Hypothesis Hstr : forall s, P (VStr s).
Hypothesis Harr : forall l, Forall P l -> P (VArr l).
Hypothesis Hobj : forall ps, Forall (fun kv => P (snd kv)) ps -> P (VObj ps).

Fixpoint JSValue_nested_ind (v : JSValue) : P v :=
  match v with
  | VUndefined => Hundefined
  | VNull => Hnull
  | VBool b => Hbool b
  | VNum z => Hnum z
  | VNaN => Hnan
  | VBigInt z => Hbigint z
  | VStr s => Hstr s
  | VArr l =>
      Harr l ((fix all (l : list JSValue) : Forall P l :=
                 match l with
                 | [] => Forall_nil P
                 | x :: r => Forall_cons x (JSValue_nested_ind x) (all r)
                 end) l)
  | VObj ps =>
      Hobj ps ((fix all (ps : list (string * JSValue)) :
                  Forall (fun kv => P (snd kv)) ps :=
                  match ps with
                  | [] => Forall_nil _
                  | kv :: r =>
                      Forall_cons kv (JSValue_nested_ind (snd kv)) (all r)
                  end) ps)
  end.
End JSValue_induction.

(** What may follow a value inside a text that [stringify] printed. *)
Definition delimited (rest : string) : Prop :=
  match rest with
  | EmptyString => True
  | String c _ => N_of_ascii c = 44%N \/ N_of_ascii c = 93%N \/ N_of_ascii c = 125%N
  end.

Definition no_digit_start (rest : string) : Prop :=
  match rest with
  | EmptyString => True
  | String c _ => JSON.is_digit c = false
  end.

(** The first character of a printed value: no blank, no closing bracket. *)
Definition value_start (str : string) : Prop :=
  match str with
  | String c _ =>
      JSON.is_ws c = false /\ N_of_ascii c <> 93%N /\ N_of_ascii c <> 125%N
  | EmptyString => False
  end.

Definition welems (l : list JSValue) : nat :=
  fold_right (fun x n => S (weight x + n)) O l.

Definition wmembers (ps : list (string * JSValue)) : nat :=
  fold_right (fun kv n => S (weight (snd kv) + n)) O ps.

(** What the claim of a round trip says of one value. *)
Definition prints_and_parses (v : JSValue) : Prop :=
  json_safe v = true ->
  exists str,
    JSON.SerializeJSONProperty v = Normal (Some str)
    /\ value_start str
    /\ (weight v <= 2 * String.length str)%nat
    /\ forall fuel rest,
         (weight v <= fuel)%nat -> delimited rest ->
         JSON.parse_value fuel (str ++ rest) = Some (v, rest).

Definition serialize_elements : list JSValue -> Completion (list string) :=
  fix elements (l : list JSValue) : Completion (list string) :=
    match l with
    | [] => Normal []
    | x :: r =>
        match JSON.SerializeJSONProperty x with
        | Throw e => Throw e
        | Normal o =>
            match elements r with
            | Throw e => Throw e
            | Normal ss =>
                Normal (match o with Some s => s | None => "null" end :: ss)
            end
        end
    end.

Definition serialize_members : list (string * JSValue) -> Completion (list string) :=
  fix members (ps : list (string * JSValue)) : Completion (list string) :=
    match ps with
    | [] => Normal []
    | (k, x) :: r =>
        match JSON.SerializeJSONProperty x with
        | Throw e => Throw e
        | Normal o =>
            match members r with
            | Throw e => Throw e
            | Normal ss =>
                Normal (match o with
                        | Some s => (JSON.QuoteJSONString k ++ ":" ++ s) :: ss
                        | None => ss
                        end)
            end
        end
    end.

(** ** Scenarios *)

(** A cache built with [new CacheService({ maxSize: n })]. *)
Definition cache_of_size (n : Z) : CacheService :=
  new_CacheService (mkCacheOptions None (Some n) None None None).

(** [set(key, value, ttl)] with the state kept and the completion dropped. *)
Definition after_set (key : string) (v : JSValue) (ttl : option Z) (now : Z)
  (s : CacheService) : CacheService :=
  snd (set key v ttl no_options now s).

Definition after_get (key : string) (now : Z) (s : CacheService) : CacheService :=
  snd (get key now s).

(** An entry with a time-to-live of 10 ms, stored at time 1000. *)
Definition short_lived : CacheService :=
  after_set "k" (VNum 1) (Some 10) 1000 (new_CacheService default_options).

(** Three keys stored one millisecond apart in a cache of two entries. *)
Definition three_keys : CacheService :=
  after_set "c" (VNum 3) None 3
    (after_set "b" (VNum 2) None 2
       (after_set "a" (VNum 1) None 1 (cache_of_size 2))).

(** Four keys fill L1 of a cache of five entries to four fifths. *)
Definition four_keys : CacheService :=
  after_set "d" (VNum 0) None 4
    (after_set "c" (VNum 0) None 3
       (after_set "b" (VNum 0) None 2
          (after_set "a" (VNum 1) None 1 (cache_of_size 5)))).

(** ... and then the first key is stored again with a new value. *)
Definition rewritten : CacheService := after_set "a" (VNum 2) None 5 four_keys.

(** An entry marked compressed whose text is not JSON. *)
Definition corrupt_entry : CacheEntry :=
  mkEntry (VStr "{") true 100000 1000 1000 0 "L1" [].

Definition corrupt_cache : CacheService :=
  with_l1 [("k", 0%nat)] (with_store [corrupt_entry] (new_CacheService default_options)).

(** One key stored twice. *)
Definition stored_twice : CacheService :=
  after_set "a" (VNum 2) None 2
    (after_set "a" (VNum 1) None 1 (new_CacheService default_options)).

(** Two keys stored within the same millisecond in a cache of two entries. *)
Definition same_ms : CacheService :=
  after_set "b" (VNum 2) None 1000
    (after_set "a" (VNum 1) None 1000 (cache_of_size 2)).

(** Three hits and one miss on a new cache. *)
Definition three_hits_one_miss : CacheService :=
  after_get "x" 5
    (after_get "k" 4
       (after_get "k" 3
          (after_get "k" 2
             (after_set "k" (VNum 7) None 1 (new_CacheService default_options))))).

(** The guard of the compression branch of [set], evaluated on the cache as
    [set] finds it (eviction leaves the three settings alone). *)
Definition will_compress (s : CacheService) (options : SetOptions) (v : JSValue) : bool :=
  enableCompression s
  && negb (match opt_compress options with Some false => true | _ => false end)
  && match JSON.stringify v with
     | Normal (Some str) => compressionThreshold s <? Z.of_nat (String.length str)
     | _ => false
     end.

(** A value survives the codec when [JSON.parse] gives it back from the
    text [JSON.stringify] printed. *)
Definition survives_codec (v : JSValue) : Prop :=
  forall str, JSON.stringify v = Normal (Some str) -> JSON.parse_text str = Normal v.

(** The object [set] has just created is the last one of the store. *)
Definition newest (s : CacheService) (r : Ref) : Prop := S r = List.length (store s).

(** L1 holds no unexpired entry for [key] other than the newest object. *)
Definition unshadowed (key : string) (now : Z) (s : CacheService) : Prop :=
  forall r e,
    item_of s (l1Cache s) key = Some (r, e) -> isExpired now e = false -> newest s r.

(** Three hundred [NaN]s: large enough to be compressed by default. *)
Definition nan_array : JSValue := VArr (repeat VNaN 300).

Definition nan_cached : CacheService :=
  after_set "k" nan_array (Some 60000) 1000 (new_CacheService default_options).

(** A small record, and a cache that compresses everything above 5 code units. *)
Definition sample_record : JSValue :=
  VObj [("title", VStr "One Piece"); ("chapters", VArr [VNum 1; VNum 2]);
        ("ongoing", VBool true); ("rating", VNull)].

Definition eager_cache : CacheService :=
  new_CacheService (mkCacheOptions None None None None (Some 5)).

(** The falsy payloads of the claim: [null], [0], the empty string, [false]. *)
Definition falsy_payloads : list JSValue := [VNull; VNum 0; VStr ""; VBool false].

(** [four_keys] after [set("a", null)], which goes to L2. *)
Definition null_behind_older : CacheService := after_set "a" VNull None 5 four_keys.

Definition plain_response : Response := mkResponse [] ExpressJson None.

(** The number 0 stored on a new cache. *)
Definition zero_cached : CacheService :=
  after_set "k" (VNum 0) None 1000 (new_CacheService default_options).

(** * Properties *)

(** ** Maps *)

Module JSMapFacts.
Section Facts.
Context {V : Type}.
Implicit Types (m : JSMap.t V) (k : string) (v : V).

Lemma get_set_same m k v : JSMap.get (JSMap.set m k v) k = Some v.
Proof.
  induction m as [|[k' v'] m IH]; simpl.
  - now rewrite String.eqb_refl.
  - destruct (String.eqb k' k) eqn:E; simpl.
    + now rewrite String.eqb_refl.
    + now rewrite E.
Qed.

Lemma get_set_other m k k' v :
  k <> k' -> JSMap.get (JSMap.set m k v) k' = JSMap.get m k'.
Proof.
  intros Hne. induction m as [|[k0 v0] m IH]; simpl.
  - destruct (String.eqb k k') eqn:E; [apply String.eqb_eq in E; contradiction | reflexivity].
  - destruct (String.eqb k0 k) eqn:E; simpl.
    + apply String.eqb_eq in E. subst k0.
      destruct (String.eqb k k') eqn:E'; [apply String.eqb_eq in E'; contradiction | reflexivity].
    + now rewrite IH.
Qed.

Lemma get_delete_same m k : JSMap.get (JSMap.delete m k) k = None.
Proof.
  unfold JSMap.delete. induction m as [|[k' v'] m IH]; simpl; [reflexivity|].
  destruct (String.eqb k' k) eqn:E; simpl; [assumption|].
  now rewrite E.
Qed.

Lemma has_delete_same m k : JSMap.has (JSMap.delete m k) k = false.
Proof. unfold JSMap.has. now rewrite get_delete_same. Qed.

Lemma size_delete_le m k : JSMap.size (JSMap.delete m k) <= JSMap.size m.
Proof.
  unfold JSMap.size, JSMap.delete.
  pose proof (filter_length_le (fun kv : string * V => negb (String.eqb (fst kv) k)) m).
  lia.
Qed.

Lemma size_set_le m k v : JSMap.size (JSMap.set m k v) <= JSMap.size m + 1.
Proof.
  unfold JSMap.size. induction m as [|[k' v'] m IH]; simpl List.length.
  - lia.
  - simpl. destruct (String.eqb k' k); simpl List.length; lia.
Qed.

Lemma size_nonneg m : 0 <= JSMap.size m.
Proof. unfold JSMap.size. lia. Qed.

Lemma keys_set m k v k' :
  In k' (JSMap.keys (JSMap.set m k v)) <-> k' = k \/ In k' (JSMap.keys m).
Proof.
  unfold JSMap.keys. induction m as [|[k0 v0] m IH]; simpl.
  - intuition congruence.
  - destruct (String.eqb k0 k) eqn:E; simpl.
    + apply String.eqb_eq in E. subst k0. intuition congruence.
    + rewrite IH. intuition congruence.
Qed.

(** A map built from [empty] by [set] and [delete] holds each key once,
    as a [Map] does. *)
Lemma set_keeps_keys_apart m k v :
  NoDup (JSMap.keys m) -> NoDup (JSMap.keys (JSMap.set m k v)).
Proof.
  unfold JSMap.keys. induction m as [|[k0 v0] m IH]; simpl; intros Hnd.
  - constructor; [intros []|constructor].
  - inversion Hnd as [|? ? Hnotin Hnd']; subst.
    destruct (String.eqb k0 k) eqn:E; simpl.
    + apply String.eqb_eq in E. subst k0. now constructor.
    + constructor; [|now apply IH].
      intros Hin. apply (keys_set m k v k0) in Hin as [->|Hin]; [|contradiction].
      now rewrite String.eqb_refl in E.
Qed.

Lemma delete_keeps_keys_apart m k :
  NoDup (JSMap.keys m) -> NoDup (JSMap.keys (JSMap.delete m k)).
Proof.
  unfold JSMap.keys, JSMap.delete. induction m as [|[k0 v0] m IH]; simpl; intros Hnd.
  - constructor.
  - inversion Hnd as [|? ? Hnotin Hnd']; subst.
    destruct (String.eqb k0 k); simpl; [now apply IH|].
    constructor; [|now apply IH].
    intros Hin. apply Hnotin. apply in_map_iff in Hin as ([k1 v1] & <- & Hin).
    apply filter_In in Hin as [Hin _]. apply in_map_iff. now exists (k1, v1).
Qed.
End Facts.
End JSMapFacts.

(** ** What the operations leave alone *)

Lemma nth_error_snoc {A : Type} (l : list A) (x : A) :
  nth_error (l ++ [x])%list (List.length l) = Some x.
Proof. induction l; simpl; auto. Qed.

Lemma evictLRU_config now s :
  enableCompression (evictLRU now s) = enableCompression s
  /\ compressionThreshold (evictLRU now s) = compressionThreshold s
  /\ defaultTTL (evictLRU now s) = defaultTTL s
  /\ maxSize (evictLRU now s) = maxSize s
  /\ stats (evictLRU now s) = stats s.
Proof.
  unfold evictLRU.
  destruct (JSMap.size (l1Cache s) =? 0); [tauto|].
  destruct (fst (lru_scan now s)) as [k|]; [|tauto].
  destruct (String.eqb k ""); [tauto|].
  cbn [l2Cache with_l1 maxSize].
  destruct (JSMap.size (l2Cache s) <? maxSize s); [|cbn; tauto].
  destruct (item_of s (l1Cache s) k) as [[r e]|]; cbn; tauto.
Qed.

Lemma evictLRU_l1_size now s :
  JSMap.size (l1Cache (evictLRU now s)) <= JSMap.size (l1Cache s).
Proof.
  unfold evictLRU.
  destruct (JSMap.size (l1Cache s) =? 0); [lia|].
  destruct (fst (lru_scan now s)) as [k|]; [|lia].
  destruct (String.eqb k ""); [lia|].
  cbn [l2Cache with_l1 maxSize].
  pose proof (JSMapFacts.size_delete_le (l1Cache s) k).
  destruct (JSMap.size (l2Cache s) <? maxSize s); [|cbn; lia].
  destruct (item_of s (l1Cache s) k) as [[r e]|]; cbn; lia.
Qed.

(** ** Lookup *)

Lemma get_from_L1 key now s r e :
  item_of s (l1Cache s) key = Some (r, e) ->
  isExpired now e = false ->
  get key now s = serve key now r e s.
Proof.
  intros H1 Hlive. unfold get, serve. rewrite H1. cbn [absent_or_expired].
  rewrite Hlive. cbv beta iota zeta. rewrite Hlive. reflexivity.
Qed.

Lemma get_from_L2 key now s r e :
  absent_or_expired now (item_of s (l1Cache s) key) = true ->
  item_of s (l2Cache s) key = Some (r, e) ->
  isExpired now e = false ->
  get key now s = serve key now r e (with_l1 (JSMap.set (l1Cache s) key r) s).
Proof.
  intros H1 H2 Hlive. unfold get, serve. rewrite H1, H2.
  rewrite Hlive. cbv beta iota zeta. cbn [negb]. cbv beta iota zeta.
  rewrite Hlive. reflexivity.
Qed.

Lemma get_expired_in_L2 key now s r e :
  absent_or_expired now (item_of s (l1Cache s) key) = true ->
  item_of s (l2Cache s) key = Some (r, e) ->
  isExpired now e = true ->
  get key now s = (VNull, snd (delete key (inc_misses s))).
Proof.
  intros H1 H2 Hdead. unfold get. rewrite H1, H2.
  rewrite Hdead. cbv beta iota zeta. cbn [negb]. cbv beta iota zeta.
  rewrite Hdead. reflexivity.
Qed.

Lemma get_absent_in_L2 key now s :
  absent_or_expired now (item_of s (l1Cache s) key) = true ->
  item_of s (l2Cache s) key = None ->
  get key now s = (VNull, inc_misses s).
Proof.
  intros H1 H2. unfold get. rewrite H1, H2. reflexivity.
Qed.

Lemma delete_removes key s :
  JSMap.has (l1Cache (snd (delete key s))) key = false
  /\ JSMap.has (l2Cache (snd (delete key s))) key = false.
Proof.
  unfold delete. cbn [l2Cache with_l1].
  destruct (JSMap.has (l1Cache s) key || JSMap.has (l2Cache s) key);
    cbn; split; apply JSMapFacts.has_delete_same.
Qed.

(** A failed decode ends [get] after the hit has been counted. *)
Lemma serve_decode_failure key now r e s err :
  compressed e = true ->
  enableCompression s = true ->
  decompress (value e) = Throw err ->
  serve key now r e s = (VNull, snd (delete key (inc_hits s))).
Proof.
  intros Hc He Hd. unfold serve. cbn [enableCompression inc_hits with_stats].
  rewrite Hc, He, Hd. reflexivity.
Qed.

Lemma delete_stats key s :
  hits (stats (snd (delete key s))) = hits (stats s)
  /\ misses (stats (snd (delete key s))) = misses (stats s).
Proof.
  unfold delete. cbn [l2Cache with_l1].
  destruct (JSMap.has (l1Cache s) key || JSMap.has (l2Cache s) key); cbn; auto.
Qed.

Lemma serve_plain key now r e s :
  compressed e = false ->
  serve key now r e s = (value e, touch r now (inc_hits s)).
Proof. intros Hc. unfold serve. now rewrite Hc. Qed.

Lemma serve_decoded key now r e s v :
  compressed e = true ->
  enableCompression s = true ->
  decompress (value e) = Normal v ->
  serve key now r e s = (v, touch r now (inc_decompressions (inc_hits s))).
Proof.
  intros Hc He Hd. unfold serve. cbn [enableCompression inc_hits with_stats].
  now rewrite Hc, He, Hd.
Qed.

(** Whatever the decode does, [serve] counts one hit and no miss. *)
Lemma serve_stats key now r e s :
  hits (stats (snd (serve key now r e s))) = hits (stats s) + 1
  /\ misses (stats (snd (serve key now r e s))) = misses (stats s).
Proof.
  unfold serve.
  destruct (compressed e && enableCompression (inc_hits s)); [|cbn; auto].
  destruct (decompress (value e)); [cbn; auto|].
  cbn [snd]. pose proof (delete_stats key (inc_hits s)) as [-> ->]. cbn. auto.
Qed.

(** With no live entry in either tier, [get] answers [null] and counts a
    miss. *)
Lemma get_miss key now s :
  absent_or_expired now (item_of s (l1Cache s) key) = true ->
  absent_or_expired now (item_of s (l2Cache s) key) = true ->
  fst (get key now s) = VNull
  /\ misses (stats (snd (get key now s))) = misses (stats s) + 1
  /\ hits (stats (snd (get key now s))) = hits (stats s).
Proof.
  intros H1 H2.
  destruct (item_of s (l2Cache s) key) as [[r e]|] eqn:E2.
  - cbn in H2. rewrite (get_expired_in_L2 key now s r e H1 E2 H2).
    unfold delete. cbn [l1Cache l2Cache with_l1 inc_misses with_stats].
    destruct (JSMap.has (l1Cache s) key || JSMap.has (l2Cache s) key); cbn; auto.
  - rewrite (get_absent_in_L2 key now s H1 E2). cbn. auto.
Qed.

(** An expired entry in L2 is removed from both tiers. *)
Lemma get_expired_in_L2_deletes key now s r e :
  absent_or_expired now (item_of s (l1Cache s) key) = true ->
  item_of s (l2Cache s) key = Some (r, e) ->
  isExpired now e = true ->
  JSMap.has (l1Cache (snd (get key now s))) key = false
  /\ JSMap.has (l2Cache (snd (get key now s))) key = false.
Proof.
  intros H1 H2 Hdead. rewrite (get_expired_in_L2 key now s r e H1 H2 Hdead).
  apply delete_removes.
Qed.

(** An expired entry that only L1 holds is not looked at again after the
    probe of L2 has overwritten [item]: the state changes in its miss counter
    alone. *)
Lemma get_expired_in_L1_only key now s r e :
  item_of s (l1Cache s) key = Some (r, e) ->
  isExpired now e = true ->
  item_of s (l2Cache s) key = None ->
  get key now s = (VNull, inc_misses s).
Proof.
  intros H1 Hdead H2. apply get_absent_in_L2; [|assumption].
  rewrite H1. exact Hdead.
Qed.

(** C1 (the code departs from the claim).  [get("k")] at time 2000 on a
    cache whose only entry, held by L1, expired at 1010: the call answers
    [null] and counts one miss, as the claim says, but the expired entry is
    still in L1 afterwards, where the claim has the key absent from both
    tiers. *)
Theorem C1_expired_L1_entry_survives_get :
  JSMap.keys (l1Cache short_lived) = ["k"]
  /\ JSMap.keys (l2Cache short_lived) = []
  /\ absent_or_expired 2000 (item_of short_lived (l1Cache short_lived) "k") = true
  /\ fst (get "k" 2000 short_lived) = VNull
  /\ misses (stats (snd (get "k" 2000 short_lived))) = misses (stats short_lived) + 1
  /\ JSMap.has (l1Cache (snd (get "k" 2000 short_lived))) "k" = true.
Proof. vm_compute. repeat split; reflexivity. Qed.

(** ** Insertion *)

Lemma set_store_choice now s :
  let s0 := if maxSize s <=? JSMap.size (l1Cache s) then evictLRU now s else s in
  enableCompression s0 = enableCompression s
  /\ maxSize s0 = maxSize s
  /\ defaultTTL s0 = defaultTTL s
  /\ stats s0 = stats s
  /\ JSMap.size (l1Cache s0) <= JSMap.size (l1Cache s).
Proof.
  cbv zeta. destruct (maxSize s <=? JSMap.size (l1Cache s)).
  - pose proof (evictLRU_config now s). pose proof (evictLRU_l1_size now s). tauto.
  - repeat split; lia.
Qed.

(** [set] never lets L1 grow past [maxSize]: it stores into L1 only below
    four fifths of it. *)
Lemma set_keeps_L1_bound key v ttl options now s :
  0 < maxSize s ->
  JSMap.size (l1Cache s) <= maxSize s ->
  JSMap.size (l1Cache (snd (set key v ttl options now s))) <= maxSize s.
Proof.
  intros Hpos Hle. unfold set.
  destruct (set_store_choice now s) as (_ & Hm & _ & _ & Hsz).
  cbv zeta in Hm, Hsz.
  set (s0 := if maxSize s <=? JSMap.size (l1Cache s) then evictLRU now s else s) in *.
  match goal with
  | |- context [match ?enc with Normal _ => _ | Throw _ => _ end] =>
      assert (Henc : forall x, enc = Normal x ->
                l1Cache (snd x) = l1Cache s0 /\ maxSize (snd x) = maxSize s0);
      [ | destruct enc as [[[cv c] s1]|e] ]
  end.
  - intros [[cv c] s1].
    destruct (enableCompression s0 && _); [|intros [= <- <- <-]; auto].
    destruct (JSON.stringify v) as [[str|]|e]; try discriminate.
    destruct (compressionThreshold s0 <? _); [|intros [= <- <- <-]; auto].
    destruct (compress v); intros [= <- <- <-]; auto.
  - destruct (Henc _ eq_refl) as [H1 H2]. cbn [snd] in H1, H2.
    cbv beta iota zeta. unfold alloc.
    cbn [snd l1Cache l2Cache maxSize with_store with_l1 with_l2 inc_sets with_stats].
    destruct (match opt_level options with Some lv => String.eqb lv "L2" | None => false end);
      cbn [orb].
    + cbn. rewrite H1. lia.
    + destruct (4 * maxSize s1 <=? 5 * JSMap.size (l1Cache s1)) eqn:E.
      * cbn. rewrite H1. lia.
      * cbn. apply Z.leb_gt in E.
        pose proof (JSMapFacts.size_set_le (l1Cache s1) key (List.length (store s1))).
        rewrite H1, H2, Hm in *. lia.
  - cbn [snd]. lia.
Qed.

(** ** Eviction *)

Lemma lru_fold_spec st l acc :
  let res := fold_left (lru_step st) l acc in
  snd res <= snd acc
  /\ (forall k r e, In (k, r) l -> nth_error st r = Some e -> snd res <= lastAccessed e)
  /\ (res = acc
      \/ exists k r e, In (k, r) l /\ nth_error st r = Some e
                       /\ res = (Some k, lastAccessed e) /\ lastAccessed e < snd acc).
Proof.
  revert acc. induction l as [|[k r] l IH]; intros acc; cbn zeta.
  - cbn. repeat split; [lia | intros ? ? ? [] | now left].
  - cbn [fold_left].
    specialize (IH (lru_step st acc (k, r))). cbn zeta in IH.
    destruct IH as (Hle & Hmin & Hres).
    assert (Hstep : snd (lru_step st acc (k, r)) <= snd acc
                    /\ (forall e, nth_error st r = Some e ->
                                  snd (lru_step st acc (k, r)) <= lastAccessed e)
                    /\ (lru_step st acc (k, r) = acc
                        \/ exists e, nth_error st r = Some e
                                     /\ lru_step st acc (k, r) = (Some k, lastAccessed e)
                                     /\ lastAccessed e < snd acc)).
    { unfold lru_step. cbn [fst snd].
      destruct (nth_error st r) as [e|]; [|repeat split; [lia|discriminate|now left]].
      destruct (lastAccessed e <? snd acc) eqn:E.
      - apply Z.ltb_lt in E. cbn [snd]. repeat split; [lia| |].
        + intros e' [= <-]. lia.
        + right. exists e. auto.
      - apply Z.ltb_ge in E. repeat split; [lia| |now left].
        intros e' [= <-]. lia. }
    destruct Hstep as (Hs1 & Hs2 & Hs3).
    split; [lia|]. split.
    + intros k' r' e' [[= <- <-]|Hin] Hn.
      * specialize (Hs2 e' Hn). lia.
      * eapply Hmin; eauto.
    + destruct Hres as [Hres | (k' & r' & e' & Hin & Hn & Hres & Hlt)].
      * rewrite Hres. destruct Hs3 as [->|(e & Hn & -> & Hlt)]; [now left|].
        right. exists k, r, e. repeat split; auto. now left.
      * right. exists k', r', e'. repeat split; auto; [now right|lia].
Qed.

(** When the scan finds a key, that key leaves L1, and no entry of L1 was
    accessed longer ago. *)
Lemma evictLRU_evicts_oldest now s k :
  fst (lru_scan now s) = Some k -> k <> "" ->
  l1Cache (evictLRU now s) = JSMap.delete (l1Cache s) k
  /\ exists r e,
       In (k, r) (l1Cache s) /\ nth_error (store s) r = Some e
       /\ lastAccessed e < now
       /\ forall k' r' e',
            In (k', r') (l1Cache s) -> nth_error (store s) r' = Some e' ->
            lastAccessed e <= lastAccessed e'.
Proof.
  intros Hk Hne. split.
  - unfold evictLRU. rewrite Hk.
    destruct (JSMap.size (l1Cache s) =? 0) eqn:E0.
    + exfalso. apply Z.eqb_eq in E0. unfold JSMap.size in E0.
      unfold lru_scan in Hk. destruct (l1Cache s); [discriminate Hk | cbn in E0; lia].
    + apply String.eqb_neq in Hne. rewrite Hne.
      cbn [l2Cache with_l1 maxSize].
      destruct (JSMap.size (l2Cache s) <? maxSize s); [|reflexivity].
      destruct (item_of s (l1Cache s) k) as [[r e]|]; reflexivity.
  - unfold lru_scan in Hk.
    destruct (lru_fold_spec (store s) (l1Cache s) (None, now)) as (_ & Hmin & Hres).
    cbn zeta in *. destruct Hres as [Hres | (k' & r & e & Hin & Hn & Hres & Hlt)].
    + rewrite Hres in Hk. discriminate.
    + rewrite Hres in *. cbn [fst snd] in *. injection Hk as ->.
      exists r, e. repeat split; auto.
Qed.

(** The evicted entry goes to L2, as a copy with level L2, exactly when L2
    holds fewer than [maxSize] entries. *)
Lemma evictLRU_demotes_or_drops now s k r e :
  fst (lru_scan now s) = Some k -> k <> "" ->
  item_of s (l1Cache s) k = Some (r, e) ->
  (JSMap.size (l2Cache s) < maxSize s ->
   store (evictLRU now s) = (store s ++ [with_level "L2" e])%list
   /\ l2Cache (evictLRU now s) = JSMap.set (l2Cache s) k (List.length (store s)))
  /\ (maxSize s <= JSMap.size (l2Cache s) ->
      store (evictLRU now s) = store s /\ l2Cache (evictLRU now s) = l2Cache s).
Proof.
  intros Hk Hne Hitem. unfold evictLRU. rewrite Hk, Hitem.
  destruct (JSMap.size (l1Cache s) =? 0) eqn:E0.
  { exfalso. apply Z.eqb_eq in E0. unfold JSMap.size in E0.
    unfold lru_scan in Hk. destruct (l1Cache s); [discriminate Hk | cbn in E0; lia]. }
  apply String.eqb_neq in Hne. rewrite Hne. cbn [l2Cache with_l1 maxSize].
  split; intros H.
  - apply Z.ltb_lt in H. rewrite H. cbn. auto.
  - apply Z.ltb_ge in H. rewrite H. cbn. auto.
Qed.

(** The scan starts from the current time: when no entry of L1 was accessed
    before [now], nothing is evicted, however full L1 is. *)
Lemma evictLRU_spares_recent now s :
  (forall k r e, In (k, r) (l1Cache s) -> nth_error (store s) r = Some e ->
                 now <= lastAccessed e) ->
  evictLRU now s = s.
Proof.
  intros Hrecent. unfold evictLRU.
  destruct (JSMap.size (l1Cache s) =? 0); [reflexivity|].
  unfold lru_scan.
  destruct (lru_fold_spec (store s) (l1Cache s) (None, now)) as (_ & _ & Hres).
  cbn zeta in Hres. destruct Hres as [-> | (k & r & e & Hin & Hn & _ & Hlt)].
  - reflexivity.
  - cbn [snd] in Hlt. specialize (Hrecent k r e Hin Hn). lia.
Qed.

(** Where a [set] that completes puts its entry. *)
Lemma set_normal_tiers key v ttl options now s s1 :
  set key v ttl options now s = (Normal tt, s1) ->
  let s0 := if maxSize s <=? JSMap.size (l1Cache s) then evictLRU now s else s in
  exists item,
    lastAccessed item = now
    /\ store s1 = (store s0 ++ [item])%list
    /\ maxSize s1 = maxSize s
    /\ if match opt_level options with
          | Some lv => String.eqb lv "L2"
          | None => false
          end
          || (4 * maxSize s <=? 5 * JSMap.size (l1Cache s0))
       then l1Cache s1 = l1Cache s0
            /\ l2Cache s1 = JSMap.set (l2Cache s0) key (List.length (store s0))
       else l1Cache s1 = JSMap.set (l1Cache s0) key (List.length (store s0))
            /\ l2Cache s1 = l2Cache s0.
Proof.
  unfold set.
  destruct (set_store_choice now s) as (_ & Hm & _).
  cbv zeta in Hm |- *.
  set (s0 := if maxSize s <=? JSMap.size (l1Cache s) then evictLRU now s else s) in *.
  rewrite <- Hm. clearbody s0. clear Hm.
  set (tier2 := match opt_level options with
                | Some lv => String.eqb lv "L2"
                | None => false
                end).
  match goal with
  | |- context [match ?enc with Normal _ => _ | Throw _ => _ end] =>
      assert (Henc : forall x, enc = Normal x ->
                l1Cache (snd x) = l1Cache s0 /\ l2Cache (snd x) = l2Cache s0
                /\ store (snd x) = store s0 /\ maxSize (snd x) = maxSize s0);
      [ | destruct enc as [[[cv c] sa]|e]; [|discriminate] ]
  end.
  - intros [[cv c] sa].
    destruct (enableCompression s0 && _); [|intros [= <- <- <-]; auto].
    destruct (JSON.stringify v) as [[str|]|e]; try discriminate.
    destruct (compressionThreshold s0 <? _); [|intros [= <- <- <-]; auto].
    destruct (compress v); intros [= <- <- <-]; auto.
  - destruct (Henc _ eq_refl) as (H1 & H2 & H3 & H4). cbn [snd] in *.
    cbv beta iota zeta. unfold alloc.
    cbn [store l1Cache l2Cache maxSize with_store].
    rewrite H1, H2, H3, H4.
    destruct (tier2 || (4 * maxSize s0 <=? 5 * JSMap.size (l1Cache s0)));
      intros [= <-]; eexists; cbn; rewrite ?H1, ?H2, ?H3, ?H4; repeat split; reflexivity.
Qed.

(** In a cache of two entries, three distinct keys stored while the clock
    advances: the third insertion evicts the first key, and only it, from L1
    to L2. *)
Lemma three_inserts_one_eviction k1 k2 k3 v1 v2 v3 t1 t2 t3 s1 s2 s3 :
  k1 <> k2 -> k1 <> k3 -> k2 <> k3 -> k1 <> "" ->
  t1 <= t2 -> t1 < t3 ->
  set k1 v1 None no_options t1 (cache_of_size 2) = (Normal tt, s1) ->
  set k2 v2 None no_options t2 s1 = (Normal tt, s2) ->
  set k3 v3 None no_options t3 s2 = (Normal tt, s3) ->
  JSMap.keys (l1Cache s1) = [k1]
  /\ JSMap.keys (l1Cache s2) = [k1; k2]
  /\ JSMap.keys (l1Cache s3) = [k2; k3]
  /\ JSMap.keys (l2Cache s3) = [k1].
Proof.
  intros H12 H13 H23 Hne Ht12 Ht13 Hs1 Hs2 Hs3.
  apply String.eqb_neq in H12, H13, H23, Hne.
  destruct (set_normal_tiers _ _ _ _ _ _ _ Hs1) as (i1 & Ha1 & Hst1 & Hm1 & Ht1).
  cbn in Hst1, Hm1, Ht1. destruct Ht1 as [Hl11 Hl21].
  destruct (set_normal_tiers _ _ _ _ _ _ _ Hs2) as (i2 & Ha2 & Hst2 & Hm2 & Ht2).
  rewrite Hm1 in Hm2, Hst2, Ht2. rewrite Hl11 in Hst2. rewrite Hl11 in Ht2.
  cbn in Hst2, Ht2. rewrite Hst1 in Hst2. rewrite Hl11, Hl21, Hst1 in Ht2.
  cbn in Hst2, Ht2. rewrite H12 in Ht2.
  destruct Ht2 as [Hl12 Hl22].
  destruct (set_normal_tiers _ _ _ _ _ _ _ Hs3) as (i3 & Ha3 & Hst3 & Hm3 & Ht3).
  rewrite Hm2 in Hm3, Hst3, Ht3. rewrite Hl12 in Hst3. rewrite Hl12 in Ht3.
  cbn in Hst3, Ht3.
  assert (Hev : l1Cache (evictLRU t3 s2) = [(k2, 1%nat)]
                /\ l2Cache (evictLRU t3 s2) = [(k1, 2%nat)]
                /\ List.length (store (evictLRU t3 s2)) = 3%nat).
  { unfold evictLRU, lru_scan, item_of. rewrite Hl12, Hst2. cbn.
    rewrite Ha1, Ha2.
    assert (E1 : (t1 <? t3) = true) by (apply Z.ltb_lt; lia).
    assert (E2 : (t2 <? t1) = false) by (apply Z.ltb_ge; lia).
    rewrite E1. cbn. rewrite E2. cbn. rewrite Hne. cbn.
    rewrite Hm2, Hl22, String.eqb_refl. cbn.
    rewrite Hst2, String.eqb_sym, H12. cbn. auto. }
  destruct Hev as (He1 & He2 & He3).
  rewrite He1, He2, He3 in Ht3. cbn in Ht3. rewrite H23 in Ht3.
  destruct Ht3 as [Hl13 Hl23].
  rewrite Hl11, Hl12, Hl13, Hl23. cbn. auto.
Qed.

(** ** The bound on L1 outside promotion *)

Lemma set_maxSize key v ttl options now s :
  maxSize (snd (set key v ttl options now s)) = maxSize s.
Proof.
  unfold set.
  destruct (set_store_choice now s) as (_ & Hm & _). cbv zeta in Hm.
  set (s0 := if maxSize s <=? JSMap.size (l1Cache s) then evictLRU now s else s) in *.
  rewrite <- Hm. clearbody s0.
  match goal with
  | |- context [match ?enc with Normal _ => _ | Throw _ => _ end] =>
      assert (Henc : forall x, enc = Normal x -> maxSize (snd x) = maxSize s0);
      [ | destruct enc as [[[cv c] sa]|e]; [|reflexivity] ]
  end.
  - intros [[cv c] sa].
    destruct (enableCompression s0 && _); [|intros [= <- <- <-]; auto].
    destruct (JSON.stringify v) as [[str|]|e]; try discriminate.
    destruct (compressionThreshold s0 <? _); [|intros [= <- <- <-]; auto].
    destruct (compress v); intros [= <- <- <-]; auto.
  - specialize (Henc _ eq_refl). cbn [snd] in Henc.
    cbv beta iota zeta. unfold alloc. cbn [store l1Cache l2Cache maxSize with_store].
    destruct (_ || _); cbn; exact Henc.
Qed.

Lemma delete_keeps_L1_bound key s :
  JSMap.size (l1Cache (snd (delete key s))) <= JSMap.size (l1Cache s).
Proof.
  unfold delete. cbn [l2Cache with_l1].
  pose proof (JSMapFacts.size_delete_le (l1Cache s) key).
  destruct (JSMap.has (l1Cache s) key || JSMap.has (l2Cache s) key); cbn; lia.
Qed.

Lemma clear_keeps_L1_bound s : JSMap.size (l1Cache (clear s)) = 0.
Proof. reflexivity. Qed.

Lemma invalidateByTags_keeps_L1_bound wanted s :
  JSMap.size (l1Cache (snd (invalidateByTags wanted s))) <= JSMap.size (l1Cache s).
Proof.
  unfold invalidateByTags. cbn. unfold JSMap.size.
  pose proof (filter_length_le (fun kr => negb (has_tag wanted s kr)) (l1Cache s)).
  lia.
Qed.

Lemma delete_keys_size {V : Type} (ks : list string) (m : JSMap.t V) :
  JSMap.size (fold_left JSMap.delete ks m) <= JSMap.size m.
Proof.
  revert m. induction ks as [|k ks IH]; intros m; cbn; [lia|].
  specialize (IH (JSMap.delete m k)).
  pose proof (JSMapFacts.size_delete_le m k). lia.
Qed.

Lemma cleanup_keeps_L1_bound now s :
  JSMap.size (l1Cache (cleanup now s)) <= JSMap.size (l1Cache s).
Proof.
  unfold cleanup. cbn [l1Cache l2Cache maxSize with_l1 with_l2].
  pose proof (delete_keys_size (expired_keys now s (l1Cache s)) (l1Cache s)) as H.
  match goal with |- context [if ?c then _ else _] => destruct c end.
  - match goal with |- context [evictLRU now ?x] =>
      pose proof (evictLRU_l1_size now x) as He end.
    cbn [l1Cache with_l1 with_l2] in He. lia.
  - cbn. lia.
Qed.

Lemma set_all_keeps_L1_bound now items s :
  0 < maxSize s ->
  JSMap.size (l1Cache s) <= maxSize s ->
  JSMap.size (l1Cache (snd (set_all now items s))) <= maxSize s
  /\ maxSize (snd (set_all now items s)) = maxSize s.
Proof.
  revert s. induction items as [|item items IH]; intros s Hpos Hle; cbn [set_all].
  - cbn. auto.
  - unfold set_item.
    pose proof (set_keeps_L1_bound (w_key item) (w_value item) (w_ttl item)
                  (match w_options item with Some o => o | None => no_options end)
                  now s Hpos Hle) as Hb.
    pose proof (set_maxSize (w_key item) (w_value item) (w_ttl item)
                  (match w_options item with Some o => o | None => no_options end)
                  now s) as Hm.
    destruct (set _ _ _ _ now s) as [[[]|e] s']; cbn [snd] in *.
    + destruct (IH s') as [H1 H2]; [lia|lia|]. split; [lia|congruence].
    + split; [lia|exact Hm].
Qed.

Lemma drain_keeps_L1_bound now queue s :
  0 < maxSize s ->
  JSMap.size (l1Cache s) <= maxSize s ->
  JSMap.size (l1Cache (snd (drain now queue s))) <= maxSize s
  /\ maxSize (snd (drain now queue s)) = maxSize s.
Proof.
  revert s. induction queue as [|item queue IH]; intros s Hpos Hle; cbn [drain].
  - cbn. auto.
  - unfold set_item.
    set (s1 := with_warming queue (isWarming s) s).
    pose proof (set_keeps_L1_bound (w_key item) (w_value item) (w_ttl item)
                  (match w_options item with Some o => o | None => no_options end)
                  now s1 Hpos Hle) as Hb.
    pose proof (set_maxSize (w_key item) (w_value item) (w_ttl item)
                  (match w_options item with Some o => o | None => no_options end)
                  now s1) as Hm.
    destruct (set _ _ _ _ now s1) as [[[]|e] s']; cbn [snd] in *.
    + change (maxSize s1) with (maxSize s) in *.
      destruct (IH s') as [H1 H2]; [lia|lia|]. split; [lia|congruence].
    + split; [exact Hb|exact Hm].
Qed.

(** [set] and every operation built on it, and every removal, keep
    [l1Cache.size <= maxSize]. *)
Lemma warmCache_keeps_L1_bound items now s :
  0 < maxSize s ->
  JSMap.size (l1Cache s) <= maxSize s ->
  JSMap.size (l1Cache (snd (warmCache items now s))) <= maxSize s.
Proof.
  intros Hpos Hle. unfold warmCache.
  destruct (isWarming s); [cbn; exact Hle|].
  set (s1 := with_warming (warmingQueue s) true s).
  destruct (set_all_keeps_L1_bound now items s1 Hpos Hle) as [H1 H2].
  destruct (set_all now items s1) as [[[]|e] s2]; cbn [snd] in *.
  - change (maxSize s1) with (maxSize s) in *.
    destruct (drain_keeps_L1_bound now (warmingQueue s2) s2) as [H3 H4]; [lia|lia|].
    destruct (drain now (warmingQueue s2) s2) as [c s3].
    cbn [snd l1Cache with_warming] in *. lia.
  - cbn [snd l1Cache with_warming]. exact H1.
Qed.

Lemma set_absent_appends {V : Type} (m : JSMap.t V) k v :
  JSMap.get m k = None -> JSMap.set m k v = (m ++ [(k, v)])%list.
Proof.
  induction m as [|[k0 v0] m IH]; simpl; [reflexivity|].
  destruct (String.eqb k0 k); [discriminate|]. intros H. now rewrite IH.
Qed.

(** The promotion appends to L1 and never looks at [maxSize]. *)
Lemma get_promotion_grows_L1 key now s r e :
  JSMap.get (l1Cache s) key = None ->
  item_of s (l2Cache s) key = Some (r, e) ->
  isExpired now e = false ->
  compressed e = false ->
  l1Cache (snd (get key now s)) = (l1Cache s ++ [(key, r)])%list
  /\ JSMap.size (l1Cache (snd (get key now s))) = JSMap.size (l1Cache s) + 1.
Proof.
  intros H1 H2 Hlive Hc.
  assert (Habs : absent_or_expired now (item_of s (l1Cache s) key) = true).
  { unfold item_of. now rewrite H1. }
  rewrite (get_from_L2 key now s r e Habs H2 Hlive), (serve_plain _ _ _ _ _ Hc).
  cbn. rewrite (set_absent_appends _ _ _ H1). split; [reflexivity|].
  unfold JSMap.size. rewrite length_app. cbn. lia.
Qed.

(** C3 (the code departs from the claim).  In a cache of two entries, three
    keys stored one millisecond apart leave two keys in L1 and the oldest in
    L2; [get] of that oldest key promotes it without a size check, and L1
    holds three entries, one more than [maxSize]. *)
Theorem C3_promotion_overfills_L1 :
  maxSize three_keys = 2
  /\ JSMap.keys (l1Cache three_keys) = ["b"; "c"]
  /\ JSMap.keys (l2Cache three_keys) = ["a"]
  /\ fst (get "a" 4 three_keys) = VNum 1
  /\ JSMap.keys (l1Cache (snd (get "a" 4 three_keys))) = ["b"; "c"; "a"]
  /\ JSMap.size (l1Cache (snd (get "a" 4 three_keys))) = 3.
Proof. vm_compute. repeat split; reflexivity. Qed.

(** A [set] that evicts nothing writes one tier and leaves the other as it
    was, whatever that tier holds for the key. *)
Lemma set_leaves_other_tier key v ttl options now s s1 :
  set key v ttl options now s = (Normal tt, s1) ->
  JSMap.size (l1Cache s) < maxSize s ->
  (l1Cache s1 = l1Cache s
   /\ l2Cache s1 = JSMap.set (l2Cache s) key (List.length (store s)))
  \/ (l2Cache s1 = l2Cache s
      /\ l1Cache s1 = JSMap.set (l1Cache s) key (List.length (store s))).
Proof.
  intros Hset Hroom.
  destruct (set_normal_tiers _ _ _ _ _ _ _ Hset) as (item & _ & _ & _ & Ht).
  apply Z.leb_gt in Hroom. rewrite Hroom in Ht.
  destruct (_ || _); [left|right]; tauto.
Qed.

(** C4 (the code departs from the claim).  With L1 at four fifths of
    [maxSize], [set("a", 2)] goes to L2 and leaves the older entry of L1
    where it is: the tiers hold two different objects for the key, both
    unexpired, with different values, and [get] answers with the older
    one. *)
Theorem C4_two_live_entries_for_one_key :
  option_map fst (item_of rewritten (l1Cache rewritten) "a") = Some 0%nat
  /\ option_map fst (item_of rewritten (l2Cache rewritten) "a") = Some 4%nat
  /\ option_map (fun x => value (snd x)) (item_of rewritten (l1Cache rewritten) "a")
     = Some (VNum 1)
  /\ option_map (fun x => value (snd x)) (item_of rewritten (l2Cache rewritten) "a")
     = Some (VNum 2)
  /\ absent_or_expired 6 (item_of rewritten (l1Cache rewritten) "a") = false
  /\ absent_or_expired 6 (item_of rewritten (l2Cache rewritten) "a") = false
  /\ fst (get "a" 6 rewritten) = VNum 1.
Proof. vm_compute. repeat split; reflexivity. Qed.

(** C5 (the code departs from the claim).  [get("k")] on an unexpired entry
    marked compressed whose text does not parse: the call answers [null],
    removes the key from both tiers and throws nothing, as the claim says,
    but the lookup has been counted as a hit before the decode, and the miss
    counter is left alone. *)
Theorem C5_failed_decode_counts_as_hit :
  decompress (value corrupt_entry) = Throw SyntaxError
  /\ isExpired 2000 corrupt_entry = false
  /\ fst (get "k" 2000 corrupt_cache) = VNull
  /\ JSMap.has (l1Cache (snd (get "k" 2000 corrupt_cache))) "k" = false
  /\ JSMap.has (l2Cache (snd (get "k" 2000 corrupt_cache))) "k" = false
  /\ hits (stats (snd (get "k" 2000 corrupt_cache))) = hits (stats corrupt_cache) + 1
  /\ misses (stats (snd (get "k" 2000 corrupt_cache))) = misses (stats corrupt_cache).
Proof. vm_compute. repeat split; reflexivity. Qed.

(** The size of the value is computed before the [try]: what
    [JSON.stringify] throws there leaves [set]. *)
Lemma set_propagates_stringify_failure key v ttl options now s err :
  enableCompression s = true ->
  opt_compress options <> Some false ->
  JSON.stringify v = Throw err ->
  fst (set key v ttl options now s) = Throw err.
Proof.
  intros He Ho Hs. unfold set.
  destruct (set_store_choice now s) as (Hc & _).
  cbv zeta in Hc.
  set (s0 := if maxSize s <=? JSMap.size (l1Cache s) then evictLRU now s else s) in *.
  rewrite Hc, He, Hs.
  destruct (opt_compress options) as [[|]|]; try reflexivity. congruence.
Qed.

(** C6 (the code departs from the claim).  [set("k", 10n)] on a new cache:
    [JSON.stringify] throws a TypeError while the size of the value is being
    computed, outside the [try]; the error leaves [set] and nothing is
    stored.  [getItemSize] guards the same expression and answers 0. *)
Theorem C6_set_propagates_serialization_failure :
  JSON.stringify (VBigInt 10) = Throw TypeError
  /\ set "k" (VBigInt 10) None no_options 1000 (new_CacheService default_options)
     = (Throw TypeError, new_CacheService default_options)
  /\ fst (set "k" VUndefined None no_options 1000 (new_CacheService default_options))
     = Throw TypeError
  /\ getItemSize (mkEntry (VBigInt 10) false 0 0 0 0 "L1" []) = 0.
Proof. vm_compute. repeat split; reflexivity. Qed.

(** [clear] empties both tiers and adds the counter of [set] calls to the
    counter of deletions. *)
Lemma clear_effect s :
  l1Cache (clear s) = [] /\ l2Cache (clear s) = []
  /\ deletes (stats (clear s)) = deletes (stats s) + sets (stats s)
  /\ hits (stats (clear s)) = hits (stats s)
  /\ misses (stats (clear s)) = misses (stats s)
  /\ sets (stats (clear s)) = sets (stats s).
Proof. unfold clear. cbn. repeat split; reflexivity. Qed.

(** C7 (the code departs from the claim).  After one key has been stored
    twice the tiers hold one entry; [clear] empties them and leaves hits,
    misses and sets alone, but adds 2, the number of [set] calls, to the
    deletions, and a second [clear], on empty tiers, adds 2 again. *)
Theorem C7_clear_adds_sets_to_deletes :
  JSMap.size (l1Cache stored_twice) + JSMap.size (l2Cache stored_twice) = 1
  /\ l1Cache (clear stored_twice) = [] /\ l2Cache (clear stored_twice) = []
  /\ deletes (stats (clear stored_twice)) = deletes (stats stored_twice) + 2
  /\ deletes (stats (clear (clear stored_twice))) = deletes (stats stored_twice) + 4
  /\ hits (stats (clear stored_twice)) = hits (stats stored_twice)
  /\ misses (stats (clear stored_twice)) = misses (stats stored_twice)
  /\ sets (stats (clear stored_twice)) = sets (stats stored_twice).
Proof. vm_compute. repeat split; reflexivity. Qed.

(** C8 (the code departs from the claim).  The scan of [evictLRU] starts
    from the current time and looks for a strictly older [lastAccessed]: on
    two entries stored in the current millisecond it finds none and removes
    nothing although L1 is full.  A third key stored in that millisecond
    causes no eviction: L1 keeps its two keys and the new one goes to L2. *)
Theorem C8_no_eviction_within_one_millisecond :
  maxSize same_ms = 2
  /\ JSMap.keys (l1Cache same_ms) = ["a"; "b"]
  /\ evictLRU 1000 same_ms = same_ms
  /\ JSMap.keys (l1Cache (after_set "c" (VNum 3) None 1000 same_ms)) = ["a"; "b"]
  /\ JSMap.keys (l2Cache (after_set "c" (VNum 3) None 1000 same_ms)) = ["c"].
Proof. vm_compute. repeat split; reflexivity. Qed.

(** ** Statistics *)

(** C9, counterexample.  After three hits and one miss the [hitRate] of the
    report is not the number 75: it is a string. *)
Lemma C9_hitRate_is_not_a_number :
  hits (stats three_hits_one_miss) = 3
  /\ misses (stats three_hits_one_miss) = 1
  /\ hitRate (performance (getStats 6 three_hits_one_miss)) <> VNum 75.
Proof. vm_compute. repeat split; try reflexivity. discriminate. Qed.

(** C9, as amended.  [getStats] reports the hit rate as a string: the double
    [hits / (hits + misses) * 100] printed by [toFixed(2)] and followed by a
    percent sign, and ["0%"] when [hits + misses] is 0; after three hits and
    one miss the string is ["75.00%"]. *)
Theorem C9_hitRate_is_a_percent_string now s :
  (hits (stats s) + misses (stats s) = 0 ->
   hitRate (performance (getStats now s)) = VStr "0%")
  /\ (0 < hits (stats s) + misses (stats s) ->
      hitRate (performance (getStats now s))
      = VStr (toFixed2
                (PrimFloat.mul
                   (PrimFloat.div (float_of_Z (hits (stats s)))
                      (float_of_Z (hits (stats s) + misses (stats s))))
                   (float_of_Z 100)) ++ "%"))
  /\ (hits (stats s) = 3 -> misses (stats s) = 1 ->
      hitRate (performance (getStats now s)) = VStr "75.00%").
Proof.
  unfold getStats. cbn [performance hitRate]. unfold hit_rate_value.
  repeat split.
  - intros H. rewrite H. reflexivity.
  - intros H. apply Z.ltb_lt in H. rewrite H. reflexivity.
  - intros H3 H1. rewrite H3, H1. vm_compute. reflexivity.
Qed.

Lemma C9_hitRate_is_a_percent_string_witness :
  hitRate (performance (getStats 6 three_hits_one_miss)) = VStr "75.00%".
Proof.
  apply (proj2 (proj2 (C9_hitRate_is_a_percent_string 6 three_hits_one_miss)));
    reflexivity.
Defined.

(** ** The codec on JSON-safe values *)

(** Strings. *)
Lemma parse_quote_char c x :
  JSON.parse_string_body (JSON.quote_char c ++ x)
  = JSON.cons_char c (JSON.parse_string_body x).
Proof.
  destruct c as [[] [] [] [] [] [] [] []]; reflexivity.
Qed.

Lemma append_assoc (a b c : string) : (a ++ b) ++ c = a ++ (b ++ c).
Proof. induction a; simpl; congruence. Qed.

Lemma parse_quote_body s rest :
  JSON.parse_string_body (JSON.quote_body s ++ String JSON.dquote rest) = Some (s, rest).
Proof.
  induction s as [|c s IH]; [reflexivity|].
  cbn [JSON.quote_body]. rewrite append_assoc, parse_quote_char, IH. reflexivity.
Qed.

(** Numbers. *)
Lemma delimited_no_digit rest : delimited rest -> no_digit_start rest.
Proof.
  destruct rest as [|c r]; [trivial|]. cbn. unfold JSON.is_digit.
  intros [H|[H|H]]; rewrite H; reflexivity.
Qed.

Lemma delimited_no_fraction rest :
  delimited rest -> JSON.starts_fraction_or_exponent rest = false.
Proof.
  destruct rest as [|c r]; [trivial|]. cbn.
  intros [H|[H|H]]; rewrite H; reflexivity.
Qed.

Lemma delimited_skip_ws rest : delimited rest -> JSON.skip_ws rest = rest.
Proof.
  destruct rest as [|c r]; [trivial|]. cbn. unfold JSON.is_ws.
  intros [H|[H|H]]; rewrite H; reflexivity.
Qed.

Lemma span_digits_uint u rest :
  no_digit_start rest ->
  JSON.span_digits (NilEmpty.string_of_uint u ++ rest)
  = (NilEmpty.string_of_uint u, rest).
Proof.
  intros Hr. induction u; cbn [NilEmpty.string_of_uint append];
    try (cbn [JSON.span_digits]; change (JSON.is_digit _) with true; cbv iota;
         rewrite IHu; reflexivity).
  destruct rest as [|c r]; [reflexivity|]. cbn in *. now rewrite Hr.
Qed.

Lemma to_uint_normal n : Decimal.unorm (N.to_uint n) = N.to_uint n.
Proof.
  rewrite <- DecimalN.Unsigned.to_of. now rewrite DecimalN.Unsigned.of_to.
Qed.

Lemma to_uint_leading_zero n u : N.to_uint n = Decimal.D0 u -> u = Decimal.Nil.
Proof.
  intros H. pose proof (to_uint_normal n) as Hn. rewrite H in Hn.
  unfold Decimal.unorm in Hn. cbn [Decimal.nzhead] in Hn.
  destruct (Decimal.nzhead u) eqn:E; try (injection Hn as <-; reflexivity);
    try discriminate.
  exfalso. injection Hn as Hn. subst. exact (nzhead_nonzero _ _ E).
Qed.

Lemma to_uint_nonnil n : N.to_uint n <> Decimal.Nil.
Proof.
  destruct n; [discriminate|]. apply DecimalPos.Unsigned.to_uint_nonnil.
Qed.

Lemma digits_value_of_N n : JSON.digits_value (string_of_N n) = Some n.
Proof.
  unfold JSON.digits_value, string_of_N. rewrite NilEmpty.usu. cbn.
  now rewrite DecimalN.Unsigned.of_to.
Qed.

(** The digits of a natural number, read back. *)
Lemma parse_digits_of_N n rest :
  delimited rest ->
  exists c d,
    string_of_N n = String c d
    /\ JSON.is_digit c = true
    /\ JSON.span_digits (string_of_N n ++ rest) = (String c d, rest)
    /\ ((N_of_ascii c =? 48)%N && negb (String.eqb d "")) = false.
Proof.
  intros Hr. unfold string_of_N.
  pose proof (span_digits_uint (N.to_uint n) rest (delimited_no_digit _ Hr)) as Hspan.
  pose proof (to_uint_nonnil n) as Hnn.
  pose proof (to_uint_leading_zero n) as Hz.
  destruct (N.to_uint n) as [|u|u|u|u|u|u|u|u|u|u]; [contradiction| ..];
    cbn [NilEmpty.string_of_uint] in *;
    eexists _, _; (split; [reflexivity|]); (split; [reflexivity|]);
    (split; [exact Hspan|]); try reflexivity.
  rewrite (Hz u eq_refl). reflexivity.
Qed.

Lemma parse_number_of_Z z rest :
  delimited rest ->
  JSON.parse_number (string_of_Z z ++ rest) = Some (z, rest).
Proof.
  intros Hr. unfold string_of_Z.
  destruct (parse_digits_of_N (Z.abs_N z) rest Hr) as (c & d & Hcd & Hdig & Hspan & Hlead).
  pose proof (digits_value_of_N (Z.abs_N z)) as Hval. rewrite Hcd in Hval.
  destruct (z <? 0) eqn:Hneg.
  - unfold JSON.parse_number. cbn [append]. change (N_of_ascii "-" =? 45)%N with true.
    cbv iota. rewrite Hspan. cbv beta iota zeta. rewrite Hlead, (delimited_no_fraction _ Hr), Hval.
    f_equal. f_equal. apply Z.ltb_lt in Hneg. rewrite N2Z.inj_abs_N. lia.
  - unfold JSON.parse_number. rewrite Hcd in *. cbn [append] in *.
    assert (Hminus : (N_of_ascii c =? 45)%N = false).
    { unfold JSON.is_digit in Hdig. apply andb_prop in Hdig as [H1 _].
      apply N.leb_le in H1. apply N.eqb_neq. lia. }
    rewrite Hminus. rewrite Hspan. cbv beta iota zeta.
    rewrite Hlead, (delimited_no_fraction _ Hr), Hval.
    f_equal. f_equal. apply Z.ltb_ge in Hneg. rewrite N2Z.inj_abs_N. lia.
Qed.

(** Values. *)
Lemma value_start_skip_ws str x :
  value_start str -> JSON.skip_ws (str ++ x) = str ++ x.
Proof.
  destruct str as [|c r]; [contradiction|]. cbn. now intros [-> _].
Qed.

Lemma parse_value_number_start f c x :
  N_of_ascii c = 45%N \/ JSON.is_digit c = true ->
  JSON.parse_value (S f) (String c x)
  = match JSON.parse_number (String c x) with
    | Some (z, r') => Some (VNum z, r')
    | None => None
    end.
Proof.
  intros H.
  destruct c as [[] [] [] [] [] [] [] []];
    try reflexivity; exfalso; destruct H as [H|H]; discriminate H.
Qed.

Lemma string_of_Z_start z :
  exists c r, string_of_Z z = String c r
              /\ (N_of_ascii c = 45%N \/ JSON.is_digit c = true).
Proof.
  unfold string_of_Z. destruct (z <? 0).
  - eexists _, _. split; [reflexivity|]. now left.
  - destruct (parse_digits_of_N (Z.abs_N z) "" I) as (c & d & Hcd & Hdig & _).
    exists c, d. auto.
Qed.

Lemma number_start_is_value_start c r :
  N_of_ascii c = 45%N \/ JSON.is_digit c = true -> value_start (String c r).
Proof.
  intros H. cbn. unfold JSON.is_ws, JSON.is_digit in *.
  destruct H as [H|H].
  - rewrite H. repeat split; discriminate.
  - apply andb_prop in H as [H1 H2]. apply N.leb_le in H1, H2.
    repeat split; try lia.
    repeat (apply orb_false_intro); apply N.eqb_neq; lia.
Qed.

Lemma parse_value_number f z rest :
  delimited rest ->
  JSON.parse_value (S f) (string_of_Z z ++ rest) = Some (VNum z, rest).
Proof.
  intros Hr. pose proof (parse_number_of_Z z rest Hr) as Hn.
  destruct (string_of_Z_start z) as (c & r & Hcr & Hc).
  rewrite Hcr in *. cbn [append] in *.
  rewrite (parse_value_number_start f c _ Hc), Hn. reflexivity.
Qed.

Lemma serialize_array l :
  JSON.SerializeJSONProperty (VArr l)
  = match serialize_elements l with
    | Throw e => Throw e
    | Normal ss => Normal (Some ("[" ++ join "," ss ++ "]"))
    end.
Proof. reflexivity. Qed.

Lemma serialize_object ps :
  JSON.SerializeJSONProperty (VObj ps)
  = match serialize_members ps with
    | Throw e => Throw e
    | Normal ss => Normal (Some ("{" ++ join "," ss ++ "}"))
    end.
Proof. reflexivity. Qed.

Lemma length_append (a b : string) :
  String.length (a ++ b) = (String.length a + String.length b)%nat.
Proof. induction a; simpl; auto. Qed.

Lemma value_start_append a b : value_start a -> value_start (a ++ b).
Proof. destruct a; [contradiction|]. auto. Qed.

Lemma parse_elements_printed l :
  Forall prints_and_parses l ->
  forallb json_safe l = true ->
  exists ss,
    serialize_elements l = Normal ss
    /\ (l <> [] -> value_start (join "," ss))
    /\ (welems l <= 2 * String.length (join "," ss) + 1)%nat
    /\ forall fuel rest,
         (welems l <= fuel)%nat -> l <> [] ->
         JSON.parse_elements fuel (join "," ss ++ String "]" rest) = Some (l, rest).
Proof.
  induction 1 as [|x r Hx Hr IH]; intros Hsafe.
  - exists []. repeat split; try easy. cbn. lia.
  - cbn [forallb] in Hsafe. apply andb_prop in Hsafe as [Hsx Hsr].
    destruct (Hx Hsx) as (sx & Hser & Hstart & Hw & Hparse).
    destruct (IH Hsr) as (ss & Hsers & Hstarts & Hws & Hparses).
    exists (sx :: ss). cbn [serialize_elements]. fold serialize_elements.
    rewrite Hser, Hsers.
    assert (Hjoin : r = [] /\ ss = [] \/ r <> [] /\ join "," (sx :: ss) = sx ++ "," ++ join "," ss).
    { destruct r as [|y r]; [left; split; auto; cbn in Hsers; congruence|].
      right. split; [discriminate|].
      destruct ss as [|sy ss]; [|reflexivity].
      cbn in Hsers. destruct (JSON.SerializeJSONProperty y); [|discriminate].
      fold serialize_elements in Hsers. destruct (serialize_elements r); discriminate. }
    split; [reflexivity|]. split; [|split].
    + intros _. destruct Hjoin as [[-> ->]|[_ ->]]; [exact Hstart|].
      now apply value_start_append.
    + cbn [welems fold_right]. fold (welems r).
      destruct Hjoin as [[-> ->]|[_ ->]].
      * cbn [welems fold_right join]. lia.
      * rewrite !length_append. cbn [String.length]. lia.
    + intros fuel rest Hfuel _. cbn [welems fold_right] in Hfuel. fold (welems r) in Hfuel.
      destruct fuel as [|fuel]; [lia|]. cbn [JSON.parse_elements].
      destruct Hjoin as [[-> ->]|[Hne ->]].
      * cbn [join]. rewrite (Hparse fuel (String "]" rest)); [|lia|cbn; auto].
        reflexivity.
      * rewrite !append_assoc. cbn [append].
        rewrite (Hparse fuel (String "," (join "," ss ++ String "]" rest))); [|lia|cbn; auto].
        cbn [JSON.skip_ws]. change (JSON.is_ws ",") with false. cbv iota.
        change (N_of_ascii "," =? 44)%N with true. cbv iota.
        rewrite (Hparses fuel rest); [reflexivity|lia|exact Hne].
Qed.

Lemma set_prop_fresh o k v :
  existsb (String.eqb k) (map fst o) = false ->
  JSON.set_prop o k v = (o ++ [(k, v)])%list.
Proof.
  induction o as [|[k' v'] o IH]; cbn; [reflexivity|].
  intros H. apply orb_false_elim in H as [H1 H2].
  rewrite String.eqb_sym, H1. now rewrite IH.
Qed.

Lemma define_all_distinct ps acc :
  distinct (map fst ps) = true ->
  (forall k, In k (map fst ps) -> existsb (String.eqb k) (map fst acc) = false) ->
  fold_left (fun o kv => JSON.set_prop o (fst kv) (snd kv)) ps acc = (acc ++ ps)%list.
Proof.
  revert acc. induction ps as [|[k v] ps IH]; intros acc Hd Hfresh; cbn.
  - now rewrite List.app_nil_r.
  - cbn in Hd. apply andb_prop in Hd as [Hk Hd]. apply negb_true_iff in Hk.
    rewrite set_prop_fresh by (apply Hfresh; now left).
    rewrite IH; [now rewrite <- List.app_assoc| exact Hd |].
    intros k' Hin. rewrite map_app, existsb_app. cbn.
    rewrite (Hfresh k') by now right.
    destruct (String.eqb k' k) eqn:E; [|reflexivity].
    apply String.eqb_eq in E. subst k'. exfalso.
    assert (existsb (String.eqb k) (map fst ps) = true); [|congruence].
    apply existsb_exists. exists k. split; [exact Hin | apply String.eqb_refl].
Qed.

Lemma make_object_distinct ps :
  distinct (map fst ps) = true -> JSON.make_object ps = VObj ps.
Proof.
  intros Hd. unfold JSON.make_object.
  now rewrite (define_all_distinct ps [] Hd) by reflexivity.
Qed.

Lemma parse_members_printed ps :
  Forall (fun kv => prints_and_parses (snd kv)) ps ->
  forallb (fun kv => json_safe (snd kv)) ps = true ->
  exists ss,
    serialize_members ps = Normal ss
    /\ (ps <> [] -> exists x, join "," ss = String JSON.dquote x)
    /\ (wmembers ps <= 2 * String.length (join "," ss) + 1)%nat
    /\ forall fuel rest,
         (wmembers ps <= fuel)%nat -> ps <> [] ->
         JSON.parse_members fuel (join "," ss ++ String "}" rest) = Some (ps, rest).
Proof.
  induction 1 as [|[k x] r Hx Hr IH]; intros Hsafe.
  - exists []. repeat split; try easy. cbn. lia.
  - cbn [forallb snd] in Hsafe. apply andb_prop in Hsafe as [Hsx Hsr].
    cbn [snd] in Hx.
    destruct (Hx Hsx) as (sx & Hser & Hstart & Hw & Hparse).
    destruct (IH Hsr) as (ss & Hsers & Hstarts & Hws & Hparses).
    exists ((JSON.QuoteJSONString k ++ ":" ++ sx) :: ss).
    cbn [serialize_members]. fold serialize_members. rewrite Hser, Hsers.
    assert (Hjoin : r = [] /\ ss = []
                    \/ r <> [] /\ join "," ((JSON.QuoteJSONString k ++ ":" ++ sx) :: ss)
                                  = (JSON.QuoteJSONString k ++ ":" ++ sx) ++ "," ++ join "," ss).
    { destruct r as [|[k' y] r]; [left; split; auto; cbn in Hsers; congruence|].
      right. split; [discriminate|].
      destruct ss as [|sy ss]; [|reflexivity].
      destruct (Hstarts ltac:(discriminate)) as (? & Hbad). discriminate Hbad. }
    split; [reflexivity|]. split; [|split].
    + intros _. destruct Hjoin as [[-> ->]|[_ ->]]; eexists; reflexivity.
    + cbn [wmembers fold_right snd]. fold (wmembers r).
      destruct Hjoin as [[-> ->]|[_ ->]].
      * cbn [wmembers fold_right join]. rewrite !length_append. lia.
      * rewrite !length_append. cbn [String.length]. lia.
    + intros fuel rest Hfuel _. cbn [wmembers fold_right snd] in Hfuel.
      fold (wmembers r) in Hfuel.
      destruct fuel as [|fuel]; [lia|]. cbn [JSON.parse_members].
      assert (Hhead : forall tail,
                 (JSON.QuoteJSONString k ++ ":" ++ sx) ++ tail
                 = String JSON.dquote
                     (JSON.quote_body k ++ String JSON.dquote (String ":" (sx ++ tail)))).
      { intros tail. unfold JSON.QuoteJSONString. cbn [append].
        rewrite !append_assoc. reflexivity. }
      destruct Hjoin as [[-> ->]|[Hne ->]].
      * cbn [join]. rewrite Hhead. cbn [JSON.skip_ws].
        change (JSON.is_ws JSON.dquote) with false. cbv iota.
        change (N_of_ascii JSON.dquote =? 34)%N with true. cbn [negb]. cbv iota.
        rewrite parse_quote_body. cbn [JSON.skip_ws].
        change (JSON.is_ws ":") with false. cbv iota.
        change (N_of_ascii ":" =? 58)%N with true. cbn [negb]. cbv iota.
        rewrite (Hparse fuel (String "}" rest)); [|lia|cbn; auto].
        reflexivity.
      * rewrite append_assoc, Hhead. cbn [JSON.skip_ws].
        change (JSON.is_ws JSON.dquote) with false. cbv iota.
        change (N_of_ascii JSON.dquote =? 34)%N with true. cbn [negb]. cbv iota.
        rewrite parse_quote_body. cbn [JSON.skip_ws].
        change (JSON.is_ws ":") with false. cbv iota.
        change (N_of_ascii ":" =? 58)%N with true. cbn [negb]. cbv iota.
        cbn [append].
        rewrite (Hparse fuel (String "," (join "," ss ++ String "}" rest))); [|lia|cbn; auto].
        cbn [JSON.skip_ws]. change (JSON.is_ws ",") with false. cbv iota.
        change (N_of_ascii "," =? 44)%N with true. cbv iota.
        rewrite (Hparses fuel rest); [reflexivity|lia|exact Hne].
Qed.

Lemma json_safe_prints_and_parses v : prints_and_parses v.
Proof.
  induction v using JSValue_nested_ind; unfold prints_and_parses; intros Hsafe;
    try discriminate Hsafe.
  - exists "null". repeat split; cbn; try lia; try discriminate.
    intros [|fuel] rest Hf _; [lia|]. reflexivity.
  - destruct b.
    + exists "true". repeat split; cbn; try lia; try discriminate.
      intros [|fuel] rest Hf _; [lia|]. reflexivity.
    + exists "false". repeat split; cbn; try lia; try discriminate.
      intros [|fuel] rest Hf _; [lia|]. reflexivity.
  - exists (string_of_Z z). split; [reflexivity|].
    destruct (string_of_Z_start z) as (c & r & Hcr & Hc).
    split; [rewrite Hcr; now apply number_start_is_value_start|].
    split; [rewrite Hcr; cbn; lia|].
    intros [|fuel] rest Hf Hr; [cbn in Hf; lia|]. now apply parse_value_number.
  - exists (JSON.QuoteJSONString s). split; [reflexivity|].
    split; [cbn; repeat split; discriminate|].
    split; [cbn; lia|].
    intros [|fuel] rest Hf Hr; [cbn in Hf; lia|].
    unfold JSON.QuoteJSONString. cbn [append JSON.parse_value JSON.skip_ws].
    change (JSON.is_ws JSON.dquote) with false. cbv iota.
    change (N_of_ascii JSON.dquote) with 34%N. cbn [N.eqb Pos.eqb]. 
    rewrite append_assoc. cbn [append]. rewrite parse_quote_body. reflexivity.
  - cbn [json_safe] in Hsafe.
    destruct (parse_elements_printed l H Hsafe) as (ss & Hser & Hstart & Hw & Hparse).
    rewrite serialize_array, Hser. eexists. split; [reflexivity|].
    split; [cbn; repeat split; discriminate|].
    split.
    { cbn [weight]. fold (welems l). cbn [append String.length].
      rewrite length_append. cbn [String.length]. lia. }
    intros [|fuel] rest Hf Hr; [cbn in Hf; lia|].
    cbn [weight] in Hf. fold (welems l) in Hf.
    cbn [append JSON.parse_value JSON.skip_ws].
    change (JSON.is_ws "[") with false. cbv iota.
    change (N_of_ascii "[") with 91%N. cbn [N.eqb Pos.eqb].
    rewrite append_assoc. cbn [append].
    destruct l as [|x l].
    + cbn in Hser. injection Hser as <-. reflexivity.
    + specialize (Hstart ltac:(discriminate)).
      pose proof (Hparse fuel rest ltac:(lia) ltac:(discriminate)) as Hp.
      rewrite (value_start_skip_ws _ _ Hstart).
      destruct (join "," ss) as [|c2 r2]; [contradiction|].
      cbn [append] in *. destruct Hstart as (_ & H93 & _).
      apply N.eqb_neq in H93. rewrite H93, Hp. reflexivity.
  - cbn [json_safe] in Hsafe. apply andb_prop in Hsafe as [Hsafe Hdist].
    destruct (parse_members_printed ps H Hsafe) as (ss & Hser & Hstart & Hw & Hparse).
    rewrite serialize_object, Hser. eexists. split; [reflexivity|].
    split; [cbn; repeat split; discriminate|].
    split.
    { cbn [weight]. fold (wmembers ps). cbn [append String.length].
      rewrite length_append. cbn [String.length]. lia. }
    intros [|fuel] rest Hf Hr; [cbn in Hf; lia|].
    cbn [weight] in Hf. fold (wmembers ps) in Hf.
    cbn [append JSON.parse_value JSON.skip_ws].
    change (JSON.is_ws "{") with false. cbv iota.
    change (N_of_ascii "{") with 123%N. cbn [N.eqb Pos.eqb].
    rewrite append_assoc. cbn [append].
    destruct ps as [|kv ps].
    + cbn in Hser. injection Hser as <-. reflexivity.
    + destruct (Hstart ltac:(discriminate)) as (x & Ej).
      pose proof (Hparse fuel rest ltac:(lia) ltac:(discriminate)) as Hp.
      rewrite Ej in *. cbn [append JSON.skip_ws].
      change (JSON.is_ws JSON.dquote) with false. cbv iota.
      change (N_of_ascii JSON.dquote =? 125)%N with false. cbv iota.
      cbn [append] in Hp. rewrite Hp.
      now rewrite make_object_distinct.
Qed.

(** [JSON.parse] gives back every JSON-safe value from the text
    [JSON.stringify] printed for it. *)
Theorem json_safe_survives_codec v : json_safe v = true -> survives_codec v.
Proof.
  intros Hsafe str Hstr.
  destruct (json_safe_prints_and_parses v Hsafe) as (str' & Hser & Hstart & Hw & Hparse).
  unfold JSON.stringify in Hstr. rewrite Hser in Hstr. injection Hstr as <-.
  unfold JSON.parse_text.
  pose proof (Hparse (2 * String.length str' + 2)%nat "" ltac:(lia) I) as Hp.
  assert (Hnil : str' ++ "" = str') by (clear; induction str'; cbn; congruence).
  rewrite Hnil in Hp. rewrite Hp. reflexivity.
Qed.

(** ** Insertion followed by lookup *)

(** What a [set] that completes has done. *)
Lemma set_normal_inv key v ttl options now s s1 :
  set key v ttl options now s = (Normal tt, s1) ->
  exists r item,
    newest s1 r
    /\ nth_error (store s1) r = Some item
    /\ expiresAt item = now + num_or ttl (defaultTTL s)
    /\ enableCompression s1 = enableCompression s
    /\ (JSMap.get (l1Cache s1) key = Some r \/ JSMap.get (l2Cache s1) key = Some r)
    /\ (compressed item = false /\ value item = v
        \/ compressed item = true /\ enableCompression s = true
           /\ will_compress s options v = true
           /\ exists str, JSON.stringify v = Normal (Some str) /\ value item = VStr str)
    /\ hits (stats s1) = hits (stats s)
    /\ misses (stats s1) = misses (stats s)
    /\ sets (stats s1) = sets (stats s) + 1.
Proof.
  unfold set, will_compress.
  destruct (set_store_choice now s) as (Hc & _ & Ht & Hst & _).
  cbv zeta in Hc, Ht, Hst.
  set (s0 := if maxSize s <=? JSMap.size (l1Cache s) then evictLRU now s else s) in *.
  assert (Hth : compressionThreshold s0 = compressionThreshold s).
  { subst s0. destruct (maxSize s <=? JSMap.size (l1Cache s)); [|reflexivity].
    apply evictLRU_config. }
  rewrite <- Hc, <- Ht, <- Hst, <- Hth. clearbody s0. clear Hc Ht Hst Hth.
  set (tier2 := match opt_level options with
                | Some lv => String.eqb lv "L2"
                | None => false
                end).
  set (off := match opt_compress options with Some false => true | _ => false end).
  destruct (enableCompression s0) eqn:He; cbn [andb].
  2:{ intros H. cbv beta iota zeta in H. unfold alloc in H.
      cbn [store l1Cache l2Cache maxSize with_store] in H.
      destruct (tier2 || _) in H; injection H as <-;
        eexists _, _; cbn; unfold newest; cbn;
        rewrite ?length_app, ?nth_error_snoc, ?JSMapFacts.get_set_same; cbn;
        repeat split; auto; try lia. }
  destruct off; cbn [negb andb].
  { intros H. cbv beta iota zeta in H. unfold alloc in H.
    cbn [store l1Cache l2Cache maxSize with_store] in H.
    destruct (tier2 || _) in H; injection H as <-;
      eexists _, _; cbn; unfold newest; cbn;
      rewrite ?length_app, ?nth_error_snoc, ?JSMapFacts.get_set_same; cbn;
      repeat split; auto; try lia. }
  unfold compress.
  destruct (JSON.stringify v) as [[str|]|err]; try discriminate.
  destruct (compressionThreshold s0 <? Z.of_nat (String.length str)) eqn:Hbig.
  - intros H. cbv beta iota zeta in H. unfold alloc in H.
    cbn [store l1Cache l2Cache maxSize with_store inc_compressions with_stats] in H.
    destruct (tier2 || _) in H; injection H as <-;
      eexists _, _; cbn; unfold newest; cbn;
      rewrite ?length_app, ?nth_error_snoc, ?JSMapFacts.get_set_same; cbn;
      (repeat split; auto; try lia); right; eauto 10.
  - intros H. cbv beta iota zeta in H. unfold alloc in H.
    cbn [store l1Cache l2Cache maxSize with_store] in H.
    destruct (tier2 || _) in H; injection H as <-;
      eexists _, _; cbn; unfold newest; cbn;
      rewrite ?length_app, ?nth_error_snoc, ?JSMapFacts.get_set_same; cbn;
      repeat split; auto; try lia.
Qed.

Lemma deepEqual_refl : forall v, deepEqual v v = true.
Proof.
  fix IH 1. intros [| |b|z| |z|s|l|ps]; cbn; auto.
  - now destruct b.
  - apply Z.eqb_refl.
  - apply Z.eqb_refl.
  - apply String.eqb_refl.
  - induction l as [|x l IHl]; [reflexivity|]. now rewrite IH, IHl.
  - induction ps as [|[k x] ps IHps]; [reflexivity|].
    now rewrite String.eqb_refl, IH, IHps.
Qed.

Lemma decompress_text str : decompress (VStr str) = JSON.parse_text str.
Proof. reflexivity. Qed.

Lemma item_of_intro s (m : JSMap.t Ref) key (r : Ref) e :
  JSMap.get m key = Some r -> nth_error (store s) r = Some e ->
  item_of s m key = Some (r, e).
Proof. intros Hg Hn. unfold item_of. now rewrite Hg, Hn. Qed.

Lemma item_of_elim s (m : JSMap.t Ref) key (r : Ref) e :
  item_of s m key = Some (r, e) ->
  JSMap.get m key = Some r /\ nth_error (store s) r = Some e.
Proof.
  unfold item_of. destruct (JSMap.get m key) as [r'|]; [|discriminate].
  destruct (nth_error (store s) r') as [e'|] eqn:E; [|discriminate].
  intros [= <- <-]. auto.
Qed.

(** After a [set] that completed, a [get] before the expiry finds the
    object [set] created, unless an older unexpired entry of L1 shadows it. *)
Lemma get_after_set key v ttl options now now' s s1 :
  set key v ttl options now s = (Normal tt, s1) ->
  now' <= now + num_or ttl (defaultTTL s) ->
  unshadowed key now' s1 ->
  exists r item s',
    get key now' s1 = serve key now' r item s'
    /\ enableCompression s' = enableCompression s
    /\ stats s' = stats s1
    /\ (compressed item = false /\ value item = v
        \/ compressed item = true /\ enableCompression s = true
           /\ will_compress s options v = true
           /\ exists str, JSON.stringify v = Normal (Some str) /\ value item = VStr str).
Proof.
  intros Hset Hlive Hshadow.
  destruct (set_normal_inv _ _ _ _ _ _ _ Hset)
    as (r & item & Hnew & Hnth & Hexp & Hen & Hwhere & Hval & _).
  assert (Hl : isExpired now' item = false).
  { unfold isExpired. rewrite Hexp. apply Z.ltb_ge. lia. }
  exists r, item.
  assert (HL1 : item_of s1 (l1Cache s1) key = Some (r, item) ->
                exists s', get key now' s1 = serve key now' r item s'
                           /\ enableCompression s' = enableCompression s
                           /\ stats s' = stats s1).
  { intros H1. exists s1. rewrite (get_from_L1 _ _ _ _ _ H1 Hl). auto. }
  assert (HL2 : absent_or_expired now' (item_of s1 (l1Cache s1) key) = true ->
                item_of s1 (l2Cache s1) key = Some (r, item) ->
                exists s', get key now' s1 = serve key now' r item s'
                           /\ enableCompression s' = enableCompression s
                           /\ stats s' = stats s1).
  { intros H1 H2. exists (with_l1 (JSMap.set (l1Cache s1) key r) s1).
    rewrite (get_from_L2 _ _ _ _ _ H1 H2 Hl). cbn. auto. }
  assert (exists s', get key now' s1 = serve key now' r item s'
                     /\ enableCompression s' = enableCompression s
                     /\ stats s' = stats s1) as (s' & Hg & He' & Hs');
    [|exists s'; auto].
  destruct Hwhere as [H1 | H2].
  - apply HL1. now apply item_of_intro.
  - destruct (item_of s1 (l1Cache s1) key) as [[r' e']|] eqn:E1.
    + destruct (isExpired now' e') eqn:Ee.
      * apply HL2; [exact Ee | now apply item_of_intro].
      * pose proof (Hshadow r' e' E1 Ee) as Hr'. unfold newest in *.
        assert (r' = r) by lia. subst r'.
        apply item_of_elim in E1 as [_ E1]. rewrite Hnth in E1.
        injection E1 as <-. apply HL1. reflexivity.
    + apply HL2; [reflexivity | now apply item_of_intro].
Qed.

(** The lookup after a completed [set]: the value comes back, one hit is
    counted and no miss. *)
Lemma get_after_set_value key v ttl options now now' s s1 :
  set key v ttl options now s = (Normal tt, s1) ->
  (will_compress s options v = true -> survives_codec v) ->
  now' <= now + num_or ttl (defaultTTL s) ->
  unshadowed key now' s1 ->
  fst (get key now' s1) = v
  /\ hits (stats (snd (get key now' s1))) = hits (stats s1) + 1
  /\ misses (stats (snd (get key now' s1))) = misses (stats s1).
Proof.
  intros Hset Hcodec Hlive Hshadow.
  destruct (get_after_set _ _ _ _ _ _ _ _ Hset Hlive Hshadow)
    as (r & item & s' & Hget & Hen & Hst & Hval).
  rewrite Hget. pose proof (serve_stats key now' r item s') as [Hh Hm].
  rewrite Hh, Hm, Hst. repeat split; auto.
  destruct Hval as [[Hc Hv] | (Hc & He & Hw & str & Hs & Hv)].
  - rewrite (serve_plain _ _ _ _ _ Hc). exact Hv.
  - rewrite (serve_decoded key now' r item s' v Hc); [reflexivity | congruence |].
    rewrite Hv, decompress_text. exact (Hcodec Hw str Hs).
Qed.

(** C2, counterexample.  An array of three hundred [NaN]s is compressed by
    [set] under the default settings; the [get] that follows at once returns
    an array of three hundred [null]s, which is not deep-equal to it. *)
Lemma C2_compression_loses_NaN :
  fst (set "k" nan_array (Some 60000) no_options 1000 (new_CacheService default_options))
  = Normal tt
  /\ fst (get "k" 1000 nan_cached) = VArr (repeat VNull 300)
  /\ deepEqual (fst (get "k" 1000 nan_cached)) nan_array = false.
Proof. vm_compute. repeat split; reflexivity. Qed.

(** C2, as amended.  For a value [v] that survives the JSON codec whenever
    [set] compresses it, a [set(key, v, ttl)] that completes, followed by
    [get(key)] before the entry expires, returns [v] itself (so a value
    deep-equal to [v]), compressed or not, provided no older unexpired entry
    of L1 shadows the one just stored. *)
Theorem C2_set_then_get_returns_value key v ttl options now now' s s1 :
  set key v ttl options now s = (Normal tt, s1) ->
  (will_compress s options v = true -> survives_codec v) ->
  now' <= now + num_or ttl (defaultTTL s) ->
  unshadowed key now' s1 ->
  fst (get key now' s1) = v
  /\ deepEqual (fst (get key now' s1)) v = true.
Proof.
  intros Hset Hcodec Hlive Hshadow.
  destruct (get_after_set_value _ _ _ _ _ _ _ _ Hset Hcodec Hlive Hshadow) as (Hv & _).
  split; [exact Hv|]. rewrite Hv. apply deepEqual_refl.
Qed.

Lemma C2_set_then_get_returns_value_witness :
  fst (get "k" 1500 (after_set "k" sample_record (Some 1000) 1000 eager_cache))
  = sample_record
  /\ deepEqual
       (fst (get "k" 1500 (after_set "k" sample_record (Some 1000) 1000 eager_cache)))
       sample_record = true.
Proof.
  apply (C2_set_then_get_returns_value "k" sample_record (Some 1000) no_options
           1000 1500 eager_cache).
  - reflexivity.
  - intros _ str H. vm_compute in H. injection H as <-. vm_compute. reflexivity.
  - vm_compute. discriminate.
  - intros r e H _. vm_compute in H. injection H as <- _. reflexivity.
Defined.

(** ** Falsy payloads and the middleware *)

Lemma falsy_payload_facts v :
  In v falsy_payloads ->
  ToBoolean v = false
  /\ survives_codec v
  /\ exists str, JSON.stringify v = Normal (Some str).
Proof.
  intros [<-|[<-|[<-|[<-|[]]]]]; (split; [reflexivity|]); split;
    try (eexists; reflexivity);
    intros str H; vm_compute in H; injection H as <-; reflexivity.
Qed.

(** [set] completes on every value [JSON.stringify] prints. *)
Lemma set_completes key v ttl options now s str :
  JSON.stringify v = Normal (Some str) ->
  fst (set key v ttl options now s) = Normal tt.
Proof.
  intros Hs. unfold set, compress. rewrite Hs.
  destruct (enableCompression _ && _); [|reflexivity].
  destruct (compressionThreshold _ <? _); reflexivity.
Qed.

(** C10, counterexample.  A stored [0] comes back from [get] as [0], which a
    caller comparing with [null] tells apart from the [null] of a miss.  And
    with L1 at four fifths of [maxSize] and holding an unexpired entry 1 for
    the key, [set("a", null)] goes to L2; the [get] that follows returns 1,
    not the falsy value, and the middleware answers the request from the
    cache with the header HIT. *)
Lemma C10_stored_payload_told_apart_from_miss :
  fst (get "k" 2000 zero_cached) = VNum 0
  /\ fst (get "other" 2000 zero_cached) = VNull
  /\ deepEqual (fst (get "k" 2000 zero_cached)) (fst (get "other" 2000 zero_cached))
     = false
  /\ fst (set "a" VNull None no_options 5 four_keys) = Normal tt
  /\ fst (get "a" 6 null_behind_older) = VNum 1
  /\ fst (get "a" 6 null_behind_older) <> VNull
  /\ fst (fst (middleware None (mkRequest "a" []) plain_response 6 null_behind_older))
     = Normal Responded
  /\ JSMap.get
       (headers (snd (fst (middleware None (mkRequest "a" []) plain_response 6
                             null_behind_older))))
       "X-Cache" = Some "HIT".
Proof. vm_compute. repeat split; try reflexivity. discriminate. Qed.

(** C10, as amended.  For [v] one of [null], [0], the empty string and
    [false]: [set(key, v)] completes, and a [get(key)] before the entry
    expires, when no older unexpired entry of L1 shadows the stored one,
    returns [v] itself, which is falsy like the [null] of a miss, and counts
    a hit and no miss.  The middleware, on a request whose key this is, does not
    answer from the cache: it hands the request on with [res.json] wrapped,
    and the wrapper, when the response is emitted, stores it under the key
    again, sets the header [X-Cache] to MISS and calls the [res.json] that
    was installed before. *)
Theorem C10_falsy_payload_is_served_as_miss key v ttl options now now' s :
  In v falsy_payloads ->
  now' <= now + num_or ttl (defaultTTL s) ->
  unshadowed key now' (snd (set key v ttl options now s)) ->
  let s1 := snd (set key v ttl options now s) in
  let s2 := snd (get key now' s1) in
  fst (set key v ttl options now s) = Normal tt
  /\ fst (get key now' s1) = v
  /\ ToBoolean (fst (get key now' s1)) = ToBoolean VNull
  /\ hits (stats s2) = hits (stats s1) + 1
  /\ misses (stats s2) = misses (stats s1)
  /\ forall mttl req res,
       generateKey (originalUrl req) (query req) = key ->
       let res' := mkResponse (headers res) (CachingJson key mttl (json res)) (body res) in
       middleware mttl req res now' s1 = (Normal CalledNext, res', s2)
       /\ forall data now2,
            fst (set key data mttl no_options now2 s2) = Normal tt ->
            call_json (json res') data now2 res' s2
            = call_json (json res) data now2 (res_set "X-Cache" "MISS" res')
                (snd (set key data mttl no_options now2 s2))
            /\ JSMap.get (headers (res_set "X-Cache" "MISS" res')) "X-Cache"
               = Some "MISS".
Proof.
  intros Hv Hlive Hshadow s1 s2.
  destruct (falsy_payload_facts v Hv) as (Hfalsy & Hcodec & str & Hstr).
  pose proof (set_completes key v ttl options now s str Hstr) as Hdone.
  assert (Hset : set key v ttl options now s = (Normal tt, s1)).
  { subst s1. rewrite <- Hdone. now destruct (set key v ttl options now s). }
  destruct (get_after_set_value key v ttl options now now' s s1 Hset (fun _ => Hcodec) Hlive Hshadow)
    as (Hget & Hh & Hm).
  assert (Htruth : ToBoolean (fst (get key now' s1)) = false) by now rewrite Hget.
  repeat split; auto.
  - unfold middleware. rewrite H. fold s1. subst s2.
    destruct (get key now' s1) as [cached s2']. cbn [fst snd] in *.
    rewrite Htruth. reflexivity.
  - cbn [json call_json].
    destruct (set key data mttl no_options now2 s2) as [[[]|e] s3]; [|discriminate].
    reflexivity.
  - cbn [res_set headers]. apply JSMapFacts.get_set_same.
Qed.

Lemma C10_falsy_payload_is_served_as_miss_witness :
  fst (get "/api/manga?page=1" 2000
         (after_set "/api/manga?page=1" VNull None 1000
            (new_CacheService default_options))) = VNull
  /\ fst (fst (middleware None (mkRequest "/api/manga" [("page", VNum 1)])
                 plain_response 2000
                 (after_set "/api/manga?page=1" VNull None 1000
                    (new_CacheService default_options)))) = Normal CalledNext.
Proof.
  destruct (C10_falsy_payload_is_served_as_miss "/api/manga?page=1" VNull None
              no_options 1000 2000 (new_CacheService default_options))
    as (_ & Hget & _ & _ & _ & Hmw).
  - simpl. auto.
  - vm_compute. discriminate.
  - intros r e H _. vm_compute in H. injection H as <- _. reflexivity.
  - split; [exact Hget|].
    destruct (Hmw None (mkRequest "/api/manga" [("page", VNum 1)]) plain_response)
      as [Hm _]; [reflexivity |].
    unfold after_set. rewrite Hm. reflexivity.
Defined.
